(** * Publication list of the portfolio site: search, filters, BibTeX display

    A shallow embedding of [src/components/publications/PublicationsList.tsx]
    (the memoised derivations [years], [types], [filteredPublications], the
    state cells and their handlers, the JSX of the list entries and of the
    filter panel), of the BibTeX parser the page feeds it from, and of the
    static routes of the page module ([generateStaticParams]).

    The strings of the publication records, the search query and the file
    names are modelled as [string]s, whose code units lie below 256: the
    JavaScript strings of Basic Latin and Latin-1 text.  On these
    [String.prototype.toLowerCase] works code unit by code unit and
    [toLowerCase] below is that map; beyond them it does not (a capital sigma
    is lowered by its position in the word, U+0130 to two code units), and
    nothing is claimed there.  The text of a page file, which the route scan
    tests with a regular expression whose white space class reaches beyond
    Latin-1, is a list of 16-bit code units. *)

From Stdlib Require Import ZArith Ascii String List Sorted Lia.
From stdpp Require Import base option list strings gmap sorting.

Local Open Scope Z_scope.

(* ================================================================= *)
(** ** JavaScript values and exceptions *)

Inductive error : Type :=
  | TypeError (msg : string).

(** A computation that may throw. *)
Inductive result (A : Type) : Type :=
  | Ok (a : A)
  | Throw (e : error).
Arguments Ok {A} a.
Arguments Throw {A} e.

Global Instance result_ret : MRet result := fun A a => Ok a.
Global Instance result_bind : MBind result := fun A B f m =>
  match m with
  | Ok a => f a
  | Throw e => Throw e
  end.

(** The values a boolean expression of the component can evaluate to:
    [x?.f()] is [undefined] when [x] is. *)
Inductive jsval : Type :=
  | JBool (b : bool)
  | JUndefined.

Definition truthy (v : jsval) : bool :=
  match v with
  | JBool b => b
  | JUndefined => false
  end.

(** [a || b] and [a && b] return one of their operands. *)
Definition js_or (a b : jsval) : jsval := if truthy a then a else b.
Definition js_and (a b : jsval) : jsval := if truthy a then b else a.

(** [x.m(..)] on a possibly missing [x]: a property read on [undefined]
    throws. *)
Definition member {A B} (x : option A) (prop : string) (m : A -> B) : result B :=
  match x with
  | Some a => Ok (m a)
  | None =>
      Throw (TypeError ("Cannot read properties of undefined (reading '"
                          +:+ prop +:+ "')"))
  end.

(** [x?.m(..)]: [undefined] when [x] is missing. *)
Definition optional_chain {A} (x : option A) (m : A -> jsval) : jsval :=
  match x with
  | Some a => m a
  | None => JUndefined
  end.

(* ================================================================= *)
(** ** String methods *)

(** The code units below 256 that [toLowerCase] changes: A-Z and, in
    Latin-1, the capitals from A grave to O diaeresis (192-214) and from
    O stroke to thorn (216-222); 215 is the multiplication sign. *)
Definition is_upper (c : ascii) : bool :=
  let n := nat_of_ascii c in
  ((65 <=? n) && (n <=? 90) || (192 <=? n) && (n <=? 214)
   || (216 <=? n) && (n <=? 222))%nat.

(** The small letter of each of them stands 32 places on; every other code
    unit below 256 is kept (sharp s, the micro sign and y diaeresis are
    small letters whose capitals lie beyond 255). *)
Definition lower_char (c : ascii) : ascii :=
  if is_upper c then ascii_of_nat (nat_of_ascii c + 32) else c.

(** [s.toLowerCase()], on code units below 256 *)
Fixpoint toLowerCase (s : string) : string :=
  match s with
  | EmptyString => EmptyString
  | String c s' => String (lower_char c) (toLowerCase s')
  end.

(** [s.startsWith(q)] *)
Fixpoint startsWith (s q : string) : bool :=
  match q, s with
  | EmptyString, _ => true
  | String _ _, EmptyString => false
  | String d q', String c s' => Ascii.eqb c d && startsWith s' q'
  end.

(** [s.includes(q)]: [q] occurs in [s] at some position. *)
Fixpoint includes (s q : string) : bool :=
  startsWith s q ||
  match s with
  | EmptyString => false
  | String _ s' => includes s' q
  end.

(** A 16-bit code unit of a JavaScript string, and the code unit of a
    character of the model. *)
Definition code_unit : Type := Z.

Definition unit_of (c : ascii) : code_unit := Z.of_nat (nat_of_ascii c).

Definition code_units (s : string) : list code_unit :=
  map unit_of (list_ascii_of_string s).

(** White space and line terminators of ECMA-262, the class [\s] of a
    regular expression and what [trim] removes: tab, line feed, vertical
    tab, form feed, carriage return, space, no-break space, and beyond
    Latin-1 the space separators (U+1680, U+2000 to U+200A, U+202F, U+205F,
    U+3000), the line and paragraph separators (U+2028, U+2029) and the
    byte order mark (U+FEFF). *)
Definition is_white_space (u : code_unit) : bool :=
  (9 <=? u) && (u <=? 13) || (u =? 32) || (u =? 160)
  || (u =? 5760) || (8192 <=? u) && (u <=? 8202)
  || (u =? 8232) || (u =? 8233) || (u =? 8239) || (u =? 8287)
  || (u =? 12288) || (u =? 65279).

(* ================================================================= *)
(** ** Array methods, on the contents of an array *)

(** [xs.some(f)] *)
Definition array_some {A} (f : A -> bool) (xs : list A) : bool := existsb f xs.

(** [xs.filter(f)] with a callback that may throw: the callback runs on
    every element in order, the first exception aborts the call. *)
Fixpoint array_filter {A} (f : A -> result jsval) (xs : list A) : result (list A) :=
  match xs with
  | [] => Ok []
  | x :: xs' =>
      v ← f x;
      rest ← array_filter f xs';
      Ok (if truthy v then x :: rest else rest)
  end.

(** [new Set(xs)] keeps the first occurrence of every value, in insertion
    order. *)
Definition set_add {A} `{EqDecision A} (seen : list A) (x : A) : list A :=
  if decide (x ∈ seen) then seen else seen ++ [x].

Definition set_values {A} `{EqDecision A} (xs : list A) : list A :=
  fold_left set_add xs [].

(** [xs.sort(cmp)]: a stable insertion sort; [cmp a b <= 0] keeps [a] before
    [b].  For a consistent comparator every conforming engine produces this
    array. *)
Fixpoint sort_insert {A} (cmp : A -> A -> Z) (x : A) (sorted : list A) : list A :=
  match sorted with
  | [] => [x]
  | y :: ys => if cmp x y <=? 0 then x :: y :: ys else y :: sort_insert cmp x ys
  end.

Definition array_sort {A} (cmp : A -> A -> Z) (xs : list A) : list A :=
  foldr (sort_insert cmp) [] xs.

(** The comparator of [xs.sort()] on strings: code-unit order. *)
Definition default_compare (x y : string) : Z :=
  match String.compare x y with
  | Lt => -1
  | Gt => 1
  | Eq => 0
  end.

(* ================================================================= *)
(** ** Data model *)

Record Author : Type := { name : string }.

(** Modelled from the spec: the declaration of [Publication]
    ([@/types/publication]) is not among the sources; the fields are those of
    the record of section 3 of the specification, where [title], [journal],
    [conference], [description], [abstract] and [bibtex] are optional
    strings.  A missing optional property reads as [undefined], here
    [None]. *)
Record Publication : Type := {
  id : string;
  type : string;
  title : option string;
  authors : list Author;
  year : Z;
  journal : option string;
  conference : option string;
  description : option string;
  abstract : option string;
  bibtex : option string;
  hidden_bib : bool
}.

Global Instance Author_eq_dec : EqDecision Author.
Proof. solve_decision. Defined.

Global Instance Publication_eq_dec : EqDecision Publication.
Proof. solve_decision. Defined.

(** [useState<number | 'all'>] *)
Inductive year_selection : Type :=
  | AllYears
  | OneYear (y : Z).

(** The string the type filter uses for "no restriction". *)
Definition all : string := "all".

(* ================================================================= *)
(** ** The memoised derivations of the component *)

Section Derivations.

Variable publications : list Publication.
Variable searchQuery : string.
Variable selectedYear : year_selection.
Variable selectedType : string.

(** Lines 42-45. *)
Definition years : list Z :=
  let uniqueYears := set_values (map year publications) in
  array_sort (fun a b => b - a) uniqueYears.

(** Lines 47-50. *)
Definition types : list string :=
  let uniqueTypes := set_values (map type publications) in
  array_sort default_compare uniqueTypes.

(** Lines 55-59: the value of [matchesSearch] for one record. *)
Definition matchesSearch (pub : Publication) : result jsval :=
  in_title ← member (title pub) "toLowerCase"
    (fun t => includes (toLowerCase t) (toLowerCase searchQuery));
  Ok (js_or
        (js_or
           (js_or
              (JBool in_title)
              (JBool (array_some
                        (fun a => includes (toLowerCase (name a))
                                           (toLowerCase searchQuery))
                        (authors pub))))
           (optional_chain (journal pub)
              (fun j => JBool (includes (toLowerCase j)
                                        (toLowerCase searchQuery)))))
        (optional_chain (conference pub)
           (fun c => JBool (includes (toLowerCase c)
                                     (toLowerCase searchQuery))))).

(** Line 61. *)
Definition matchesYear (pub : Publication) : bool :=
  match selectedYear with
  | AllYears => true
  | OneYear y => year pub =? y
  end.

(** Line 62. *)
Definition matchesType (pub : Publication) : bool :=
  String.eqb selectedType all || String.eqb (type pub) selectedType.

(** Lines 54-65: the callback handed to [filter]. *)
Definition keep (pub : Publication) : result jsval :=
  search ← matchesSearch pub;
  Ok (js_and (js_and search (JBool (matchesYear pub)))
             (JBool (matchesType pub))).

(** Lines 53-66. *)
Definition filteredPublications : result (list Publication) :=
  array_filter keep publications.

End Derivations.

(* ================================================================= *)
(** ** The JSX of one list entry (lines 198-274) *)

(** What a click handler of the entry does when it fires. *)
Inductive action : Type :=
  | SetExpandedAbstractId (v : option string)
  | SetExpandedBibtexId (v : option string)
  | ClipboardWriteText (s : string).

(** A rendered element tree. *)
#[local] Unset Elimination Schemes.
Inductive vnode : Type :=
  | Element (tag : string) (props : list (string * string))
            (onClick : option action) (children : list vnode)
  | Text (s : string)
  | Number (z : Z)
  | Icon (component : string).
#[local] Set Elimination Schemes.

(** Truthiness of an optional string: [undefined] and [''] are falsy. *)
Definition str_truthy (o : option string) : bool :=
  match o with
  | Some s => negb (String.eqb s EmptyString)
  | None => false
  end.

(** [{cond && <el/>}]: a falsy condition renders nothing. *)
Definition when (cond : bool) (el : vnode) : list vnode :=
  if cond then [el] else [].

(** [{s}] for an optional string. *)
Definition text_child (o : option string) : list vnode :=
  match o with
  | Some s => [Text s]
  | None => []
  end.

(** [a || b] on optional strings. *)
Definition str_or (a b : option string) : option string :=
  if str_truthy a then a else b.

(** [expanded === pub.id] *)
Definition is_expanded (expanded : option string) (pub : Publication) : bool :=
  bool_decide (expanded = Some (id pub)).

(** [expanded === pub.id ? null : pub.id] *)
Definition toggled (expanded : option string) (pub : Publication) : option string :=
  if is_expanded expanded pub then None else Some (id pub).

Section Entry.

Variable embedded : bool.
Variable expandedBibtexId : option string.
Variable expandedAbstractId : option string.

(** Lines 226-234. *)
Definition abstractButton (pub : Publication) : vnode :=
  Element "button"
    [("className", "px-3 py-1 text-xs rounded-md bg-neutral-100 dark:bg-neutral-800")]
    (Some (SetExpandedAbstractId (toggled expandedAbstractId pub)))
    [Icon "DocumentTextIcon"; Text "Abstract"].

(** Lines 238-246. *)
Definition bibtexButton (pub : Publication) : vnode :=
  Element "button"
    [("className", "px-3 py-1 text-xs rounded-md bg-neutral-100 dark:bg-neutral-800")]
    (Some (SetExpandedBibtexId (toggled expandedBibtexId pub)))
    [Icon "BookOpenIcon"; Text "BibTeX"].

(** Lines 252-254. *)
Definition abstractPanel (pub : Publication) : vnode :=
  Element "motion.div" [("className", "mt-4")] None
    [Element "p" [("className", "text-sm")] None (text_child (abstract pub))].

(** Lines 260-271. *)
Definition bibtexPanel (pub : Publication) : vnode :=
  Element "motion.div" [("className", "mt-4 relative")] None
    [Element "pre"
       [("className", "text-xs bg-neutral-50 dark:bg-neutral-800 p-4 rounded")]
       None (text_child (bibtex pub));
     Element "button"
       [("className", "absolute top-2 right-2"); ("title", "Copy BibTeX")]
       (Some (ClipboardWriteText (default EmptyString (bibtex pub))))
       [Icon "ClipboardDocumentIcon"]].

(** Lines 198-274: one entry of the list; the animation props are left
    out. *)
Definition renderEntry (pub : Publication) : vnode :=
  Element "motion.div"
    [("key", id pub);
     ("className",
      "bg-white dark:bg-neutral-900 p-6 rounded-xl border border-neutral-200 dark:border-neutral-800")]
    None
    ([Element "h3"
        [("className",
          (if embedded then "text-lg" else "text-xl") +:+ " font-semibold mb-2")]
        None (text_child (title pub));
      Element "p"
        [("className", "text-sm text-neutral-600 dark:text-neutral-400 mb-2")]
        None [Text (String.concat ", " (map name (authors pub)))];
      Element "p" [("className", "text-sm font-medium mb-3")] None
        (text_child (str_or (journal pub) (conference pub))
           ++ [Text " "; Number (year pub)])]
     ++ when (str_truthy (description pub))
          (Element "p"
             [("className", "text-sm text-neutral-600 dark:text-neutral-500 mb-4")]
             None (text_child (description pub)))
     ++ [Element "div" [("className", "flex flex-wrap gap-2")] None
           (when (str_truthy (abstract pub)) (abstractButton pub)
            ++ when (str_truthy (bibtex pub) && negb (hidden_bib pub))
                 (bibtexButton pub));
         Element "AnimatePresence" [] None
           (when (is_expanded expandedAbstractId pub && str_truthy (abstract pub))
              (abstractPanel pub)
            ++ when (is_expanded expandedBibtexId pub
                     && str_truthy (bibtex pub) && negb (hidden_bib pub))
                 (bibtexPanel pub))]).

End Entry.

(** Some node of the tree satisfies [P]. *)
Fixpoint any_node (P : vnode -> bool) (n : vnode) : bool :=
  P n ||
  match n with
  | Element _ _ _ children => existsb (any_node P) children
  | _ => false
  end.

(** The button that opens and closes the BibTeX panel of an entry. *)
Definition is_bibtex_toggle (n : vnode) : bool :=
  match n with
  | Element tag _ (Some (SetExpandedBibtexId _)) _ => String.eqb tag "button"
  | _ => false
  end.

(** The parts of the expanded BibTeX panel: the [pre] block showing the
    source text and the copy button. *)
Definition is_bibtex_panel_part (n : vnode) : bool :=
  match n with
  | Element tag _ (Some (ClipboardWriteText _)) _ => String.eqb tag "button"
  | Element tag _ _ _ => String.eqb tag "pre"
  | _ => false
  end.

Definition is_bibtex_control (n : vnode) : bool :=
  is_bibtex_toggle n || is_bibtex_panel_part n.

(* ================================================================= *)
(** ** Arrays as objects: the store and the aliasing of the component

    [map], [filter], [new Set] and [Array.from] build a new object;
    [sort] reorders the array it is called on and returns that same
    array. *)

(** The address of an object. *)
Definition loc : Type := nat.

(** The objects the derivations touch: arrays of records, numbers and
    strings (a [Set] is kept as the array of its values in insertion
    order). *)
Inductive object : Type :=
  | PublicationArray (xs : list Publication)
  | NumberArray (xs : list Z)
  | StringArray (xs : list string).

(** Element types an array of the store can hold. *)
Class Stored (A : Type) : Type := {
  to_object : list A -> object;
  of_object : object -> option (list A);
  of_to_object : forall xs, of_object (to_object xs) = Some xs
}.

#[global, refine] Instance Stored_Publication : Stored Publication := {
  to_object := PublicationArray;
  of_object o := match o with PublicationArray xs => Some xs | _ => None end
}.
Proof. reflexivity. Defined.

#[global, refine] Instance Stored_number : Stored Z := {
  to_object := NumberArray;
  of_object o := match o with NumberArray xs => Some xs | _ => None end
}.
Proof. reflexivity. Defined.

#[global, refine] Instance Stored_string : Stored string := {
  to_object := StringArray;
  of_object o := match o with StringArray xs => Some xs | _ => None end
}.
Proof. reflexivity. Defined.

Abbreviation store := (gmap loc object).

(** A computation on the store that may throw; the store survives the
    exception. *)
Definition M (A : Type) : Type := store -> result A * store.

Global Instance M_ret : MRet M := fun A a h => (Ok a, h).
Global Instance M_bind : MBind M := fun A B f m h =>
  match m h with
  | (Ok a, h') => f a h'
  | (Throw e, h') => (Throw e, h')
  end.

(** A computation that leaves the store alone. *)
Definition lift {A} (r : result A) : M A := fun h => (r, h).

(** A new object at an address not in use. *)
Definition alloc {A} `{Stored A} (xs : list A) : M loc := fun h =>
  let l := fresh (dom h) in (Ok l, <[l := to_object xs]> h).

(** The contents of the array at [l]. *)
Definition read {A} `{Stored A} (l : loc) : M (list A) := fun h =>
  match h !! l ≫= of_object with
  | Some xs => (Ok xs, h)
  | None => (Throw (TypeError "not an array of this element type"), h)
  end.

(** Overwrite the array at [l]. *)
Definition write {A} `{Stored A} (l : loc) (xs : list A) : M unit := fun h =>
  (Ok tt, <[l := to_object xs]> h).

Section ArrayObjects.

Context {A B : Type} `{Stored A} `{Stored B} `{EqDecision A}.

(** [arr.map(f)] *)
Definition Array_map (f : A -> B) (arr : loc) : M loc :=
  xs ← read arr; alloc (map f xs).

(** [arr.filter(f)] *)
Definition Array_filter (f : A -> result jsval) (arr : loc) : M loc :=
  xs ← read arr; ys ← lift (array_filter f xs); alloc ys.

(** [new Set(arr)] *)
Definition Set_new (arr : loc) : M loc :=
  xs ← read (A:=A) arr; alloc (set_values xs).

(** [Array.from(set)] *)
Definition Array_from (set : loc) : M loc :=
  xs ← read (A:=A) set; alloc xs.

(** [arr.sort(cmp)]: in place, returns [arr]. *)
Definition Array_sort (cmp : A -> A -> Z) (arr : loc) : M loc :=
  xs ← read arr; _ ← write arr (array_sort cmp xs); mret arr.

End ArrayObjects.

Section Component.

Variable publications : loc.
Variable searchQuery : string.
Variable selectedYear : year_selection.
Variable selectedType : string.

(** Lines 42-45. *)
Definition years_memo : M loc :=
  mapped ← Array_map year publications;
  set ← Set_new (A:=Z) mapped;
  uniqueYears ← Array_from (A:=Z) set;
  Array_sort (fun a b => b - a) uniqueYears.

(** Lines 47-50. *)
Definition types_memo : M loc :=
  mapped ← Array_map type publications;
  set ← Set_new (A:=string) mapped;
  uniqueTypes ← Array_from (A:=string) set;
  Array_sort default_compare uniqueTypes.

(** Lines 53-66. *)
Definition filteredPublications_memo : M loc :=
  Array_filter (keep searchQuery selectedYear selectedType) publications.

(** One evaluation of the three memoised derivations, in source order. *)
Definition derive : M (loc * loc * loc) :=
  ys ← years_memo;
  ts ← types_memo;
  fs ← filteredPublications_memo;
  mret (ys, ts, fs).

End Component.

(* ================================================================= *)
(** ** The BibTeX parser *)

(** [parseBibTeX] ([@/lib/bibtexParser]) is not among the sources.  The
    definitions of this part follow the contract and the algorithm sketch of
    section 4.1 of the specification: scan for entry start markers, find the
    matching closing brace by nesting depth, split the span on top-level
    commas into the citation key and the field assignments, split each
    assignment on its first [=], trim, strip one layer of braces or quotes. *)

(** The double quote character. *)
Definition dquote : ascii := ascii_of_nat 34.

(** A-Z or a-z. *)
Definition is_letter (c : ascii) : bool :=
  let n := nat_of_ascii c in
  ((65 <=? n) && (n <=? 90) || (97 <=? n) && (n <=? 122))%nat.

(** 0-9. *)
Definition is_digit (c : ascii) : bool :=
  let n := nat_of_ascii c in ((48 <=? n) && (n <=? 57))%nat.

(** Characters of an entry type token. *)
Definition is_token_char (c : ascii) : bool := is_letter c || is_digit c.

(** [s.trimStart()] *)
Fixpoint trimStart (s : string) : string :=
  match s with
  | EmptyString => EmptyString
  | String c s' => if is_white_space (unit_of c) then trimStart s' else s
  end.

(** [s.trimEnd()] *)
Fixpoint trimEnd (s : string) : string :=
  match s with
  | EmptyString => EmptyString
  | String c s' =>
      match trimEnd s' with
      | EmptyString =>
          if is_white_space (unit_of c) then EmptyString
          else String c EmptyString
      | t => String c t
      end
  end.

(** [s.trim()] *)
Definition trim (s : string) : string := trimEnd (trimStart s).

(** The text before the last character, and that character. *)
Fixpoint unsnoc (s : string) : option (string * ascii) :=
  match s with
  | EmptyString => None
  | String c s' =>
      match unsnoc s' with
      | None => Some (EmptyString, c)
      | Some (init, z) => Some (String c init, z)
      end
  end.

(** Modelled from the spec: part of the missing parser; strip a single layer
    of surrounding braces or quotes from a value. *)
Definition strip_layer (v : string) : string :=
  match v with
  | EmptyString => EmptyString
  | String o rest =>
      match unsnoc rest with
      | Some (inner, c) =>
          if Ascii.eqb o "{" && Ascii.eqb c "}"
             || Ascii.eqb o dquote && Ascii.eqb c dquote
          then inner else v
      | None => v
      end
  end.

(** Put a character in front of the first segment. *)
Definition push_head (c : ascii) (segs : list string) : list string :=
  match segs with
  | seg :: segs' => String c seg :: segs'
  | [] => [String c EmptyString]
  end.

(** Modelled from the spec: part of the missing parser; split on the
    top-level commas, those outside every brace pair and outside quotes. *)
Fixpoint split_top (depth : nat) (quoted : bool) (s : string) : list string :=
  match s with
  | EmptyString => [EmptyString]
  | String c s' =>
      if Ascii.eqb c "," && Nat.eqb depth 0 && negb quoted
      then EmptyString :: split_top 0 false s'
      else
        let depth' :=
          if Ascii.eqb c "{" then S depth
          else if Ascii.eqb c "}" then Nat.pred depth
          else depth in
        let quoted' :=
          if Ascii.eqb c dquote && Nat.eqb depth 0 then negb quoted else quoted in
        push_head c (split_top depth' quoted' s')
  end.

(** Modelled from the spec: part of the missing parser; split an assignment
    on its first [=]. *)
Fixpoint split_eq (s : string) : option (string * string) :=
  match s with
  | EmptyString => None
  | String c s' =>
      if Ascii.eqb c "=" then Some (EmptyString, s')
      else
        match split_eq s' with
        | Some (n, v) => Some (String c n, v)
        | None => None
        end
  end.

(** Modelled from the spec: part of the missing parser; one
    [field = value] assignment, the name lower-cased (names match
    case-insensitively), the value trimmed and stripped of one layer. *)
Definition parse_assignment (seg : string) : option (string * string) :=
  match split_eq seg with
  | Some (n, v) => Some (toLowerCase (trim n), strip_layer (trim v))
  | None => None
  end.

(** Modelled from the spec: part of the missing parser; the value of the
    first assignment to the field [n]. *)
Definition field (fields : list (string * string)) (n : string) : option string :=
  match find (fun f => String.eqb (fst f) n) fields with
  | Some f => Some (snd f)
  | None => None
  end.

(** Modelled from the spec: part of the missing parser; split the author
    field on the word [and] standing between white space. *)
Fixpoint split_and (s : string) : list string :=
  match s with
  | EmptyString => [EmptyString]
  | String c s' =>
      match s' with
      | String "a" (String "n" (String "d" (String c' _ as after))) =>
          if Ascii.is_space c && Ascii.is_space c'
          then EmptyString :: split_and after
          else push_head c (split_and s')
      | _ => push_head c (split_and s')
      end
  end.

(** Modelled from the spec: part of the missing parser; the names of the
    author field, trimmed; an empty field gives no author. *)
Definition parse_authors (v : string) : list Author :=
  map (fun n => {| name := n |})
      (filter (fun n => n <> EmptyString) (map trim (split_and v))).

Definition digit_value (c : ascii) : option Z :=
  if is_digit c then Some (Z.of_nat (nat_of_ascii c) - 48) else None.

Fixpoint parse_digits (acc : Z) (s : string) : option Z :=
  match s with
  | EmptyString => Some acc
  | String c s' =>
      match digit_value c with
      | Some d => parse_digits (10 * acc + d) s'
      | None => None
      end
  end.

(** Modelled from the spec: part of the missing parser; the year as an
    integer, nothing for non-numeric content. *)
Definition parse_int (s : string) : option Z :=
  match s with
  | EmptyString => None
  | _ => parse_digits 0 s
  end.

(** Modelled from the spec: part of the missing parser; the citation key is
    the first top-level segment of the span. *)
Definition citation_key (body : string) : string :=
  match split_top 0 false body with
  | key :: _ => trim key
  | [] => EmptyString
  end.

Section Parser.

(** The integer that stands for an absent or non-numeric year; the
    specification leaves it open. *)
Variable absent_year : Z.

(** Modelled from the spec: part of the missing parser; the record of an
    entry from its type token, its span and its verbatim text.  A span
    without a citation key is not an entry and gives no record; a
    [hidden_bib] field with a non-empty value sets the flag. *)
Definition build_record (ty body raw : string) : option Publication :=
  let fields := omap parse_assignment (tail (split_top 0 false body)) in
  if String.eqb (citation_key body) EmptyString then None
  else Some {|
    id := citation_key body;
    type := ty;
    title := field fields "title";
    authors := from_option parse_authors [] (field fields "author");
    year := default absent_year (field fields "year" ≫= parse_int);
    journal := field fields "journal";
    conference := field fields "conference";
    description := field fields "description";
    abstract := field fields "abstract";
    bibtex := Some raw;
    hidden_bib := str_truthy (field fields "hidden_bib")
  |}.

(** Modelled from the spec: part of the missing parser; after [@], the type
    token and the opening brace. *)
Fixpoint entry_start (s : string) : option (string * string) :=
  match s with
  | EmptyString => None
  | String c s' =>
      if Ascii.eqb c "{" then Some (EmptyString, s')
      else if is_token_char c then
        match entry_start s' with
        | Some (ty, after) => Some (String c ty, after)
        | None => None
        end
      else None
  end.

(** Modelled from the spec: part of the missing parser; the span up to the
    closing brace that matches the entry's opening brace, and the text
    behind it; [depth] counts the braces open inside the entry. *)
Fixpoint match_close (depth : nat) (s : string) : option (string * string) :=
  match s with
  | EmptyString => None
  | String c s' =>
      let continue d :=
        match match_close d s' with
        | Some (body, behind) => Some (String c body, behind)
        | None => None
        end in
      if Ascii.eqb c "}" then
        match depth with
        | O => Some (EmptyString, s')
        | S d => continue d
        end
      else if Ascii.eqb c "{" then continue (S depth)
      else continue depth
  end.

(** Modelled from the spec: part of the missing parser; the scan for entry
    start markers.  A marker whose braces balance gives its record and the
    scan goes on behind the closing brace; one whose braces do not balance
    before the end of the input is dropped and the scan goes on behind its
    [@]. *)
Fixpoint scan (fuel : nat) (s : string) : list Publication :=
  match fuel, s with
  | O, _ => []
  | _, EmptyString => []
  | S fuel', String c rest =>
      if Ascii.eqb c "@" then
        match entry_start rest with
        | Some (String t ty', after) =>
            let ty := String t ty' in
            match match_close 0 after with
            | Some (body, behind) =>
                let raw := "@" +:+ ty +:+ "{" +:+ body +:+ "}" in
                match build_record ty body raw with
                | Some r => r :: scan fuel' behind
                | None => scan fuel' behind
                end
            | None => scan fuel' rest
            end
        | _ => scan fuel' rest
        end
      else scan fuel' rest
  end.

(** Modelled from the spec: [parseBibTeX] of [@/lib/bibtexParser], which is
    not among the sources.  Every step of the scan consumes a character, so
    the length of the text is fuel enough for the whole scan. *)
Definition parseBibTeX (text : string) : list Publication :=
  scan (String.length text) text.

End Parser.

(* ================================================================= *)
(** ** The contract of the filter, in the words of the specification *)

(** The alphabets of the code units below 256, each as the code unit of
    its first capital and its number of letters: A-Z, A grave to
    O diaeresis, O stroke to thorn.  The small letters follow in the same
    order, from a (97), a grave (224) and o stroke (248). *)
Definition alphabets : list (nat * nat) := [(65, 26); (192, 23); (216, 7)]%nat.

(** Two characters are the same up to case: equal, or the upper-case and
    the lower-case form of one letter. *)
Definition same_letter (c d : ascii) : Prop :=
  c = d \/
  exists first count k : nat, (first, count) ∈ alphabets /\ (k < count)%nat /\
    ((c = ascii_of_nat (first + k) /\ d = ascii_of_nat (first + 32 + k)) \/
     (d = ascii_of_nat (first + k) /\ c = ascii_of_nat (first + 32 + k))).

Inductive equal_ignoring_case : string -> string -> Prop :=
  | eic_empty : equal_ignoring_case EmptyString EmptyString
  | eic_char c d s t :
      same_letter c d -> equal_ignoring_case s t ->
      equal_ignoring_case (String c s) (String d t).

(** [q] is a case-insensitive substring of [s]. *)
Definition occurs_ignoring_case (q s : string) : Prop :=
  exists before found after,
    s = before +:+ found +:+ after /\ equal_ignoring_case q found.

(** Text search: the query occurs in the title, in some author's name, in
    the journal or in the conference. *)
Definition search_criterion (q : string) (pub : Publication) : Prop :=
  (exists t, title pub = Some t /\ occurs_ignoring_case q t) \/
  (exists a, a ∈ authors pub /\ occurs_ignoring_case q (name a)) \/
  (exists j, journal pub = Some j /\ occurs_ignoring_case q j) \/
  (exists c, conference pub = Some c /\ occurs_ignoring_case q c).

(** Year filter: exact match, or pass-through for "all". *)
Definition year_criterion (sel : year_selection) (pub : Publication) : Prop :=
  sel = AllYears \/ sel = OneYear (year pub).

(** Type filter: exact match, or pass-through for "all". *)
Definition type_criterion (sel : string) (pub : Publication) : Prop :=
  sel = all \/ sel = type pub.

(** The record carries a title. *)
Definition has_title (pub : Publication) : Prop := is_Some (title pub).

(** Code-unit order on strings. *)
Definition string_lt (x y : string) : Prop := String.compare x y = Lt.

(* ================================================================= *)
(** ** Well-formed and unclosed entries *)



Fixpoint all_chars (P : ascii -> bool) (s : string) : bool :=
  match s with
  | EmptyString => true
  | String c s' => P c && all_chars P s'
  end.


(** Text without [@]. *)
Definition no_at (s : string) : bool :=
  all_chars (fun c => negb (Ascii.eqb c "@")) s.

(** The text behind an [@] shows, within itself, that this [@] starts no
    entry: the run of token characters ends in a character that is neither
    a token character nor [{], or [{] follows the [@] at once.  [seen] tells
    whether a token character has been read. *)
Fixpoint dead_start (seen : bool) (s : string) : bool :=
  match s with
  | EmptyString => false
  | String c s' =>
      if Ascii.eqb c "{" then negb seen
      else if is_token_char c then dead_start true s'
      else true
  end.

(** No [@] of the text starts an entry, whatever follows the text. *)
Fixpoint marker_free (s : string) : bool :=
  match s with
  | EmptyString => true
  | String c s' =>
      (if Ascii.eqb c "@" then dead_start false s' else true) && marker_free s'
  end.







(* ================================================================= *)
(** ** The state of the component and its handlers (lines 29-39) *)

Global Instance year_selection_eq_dec : EqDecision year_selection.
Proof. solve_decision. Defined.

(** The six [useState] cells. *)
Record state : Type := {
  searchQuery : string;
  selectedYear : year_selection;
  selectedType : string;
  showFilters : bool;
  expandedBibtexId : option string;
  expandedAbstractId : option string
}.

(** The initial values of the cells. *)
Definition initial_state : state :=
  {| searchQuery := EmptyString; selectedYear := AllYears; selectedType := all;
     showFilters := false; expandedBibtexId := None;
     expandedAbstractId := None |}.

(** What a handler of the search row or of the filter panel does when it
    fires. *)
Inductive toolbar_action : Type :=
  | SetSearchQuery (v : string)
  | SetShowFilters (b : bool)
  | SetSelectedYear (y : year_selection)
  | SetSelectedType (t : string).

(** What can happen to a mounted component: a click in an entry, a handler
    of the toolbar, or the effect that runs when [publications] changes
    (lines 37-39). *)
Inductive event : Type :=
  | EntryAction (a : action)
  | ToolbarAction (a : toolbar_action)
  | PublicationsEffect.

(** The state after an event.  Writing to the clipboard leaves the cells
    alone. *)
Definition update (s : state) (e : event) : state :=
  match e with
  | EntryAction (SetExpandedAbstractId v) =>
      {| searchQuery := searchQuery s; selectedYear := selectedYear s;
         selectedType := selectedType s; showFilters := showFilters s;
         expandedBibtexId := expandedBibtexId s; expandedAbstractId := v |}
  | EntryAction (SetExpandedBibtexId v) =>
      {| searchQuery := searchQuery s; selectedYear := selectedYear s;
         selectedType := selectedType s; showFilters := showFilters s;
         expandedBibtexId := v; expandedAbstractId := expandedAbstractId s |}
  | EntryAction (ClipboardWriteText _) => s
  | ToolbarAction (SetSearchQuery v) =>
      {| searchQuery := v; selectedYear := selectedYear s;
         selectedType := selectedType s; showFilters := showFilters s;
         expandedBibtexId := expandedBibtexId s;
         expandedAbstractId := expandedAbstractId s |}
  | ToolbarAction (SetShowFilters b) =>
      {| searchQuery := searchQuery s; selectedYear := selectedYear s;
         selectedType := selectedType s; showFilters := b;
         expandedBibtexId := expandedBibtexId s;
         expandedAbstractId := expandedAbstractId s |}
  | ToolbarAction (SetSelectedYear y) =>
      {| searchQuery := searchQuery s; selectedYear := y;
         selectedType := selectedType s; showFilters := showFilters s;
         expandedBibtexId := expandedBibtexId s;
         expandedAbstractId := expandedAbstractId s |}
  | ToolbarAction (SetSelectedType t) =>
      {| searchQuery := searchQuery s; selectedYear := selectedYear s;
         selectedType := t; showFilters := showFilters s;
         expandedBibtexId := expandedBibtexId s;
         expandedAbstractId := expandedAbstractId s |}
  | PublicationsEffect =>
      {| searchQuery := searchQuery s; selectedYear := selectedYear s;
         selectedType := selectedType s; showFilters := showFilters s;
         expandedBibtexId := None;
         expandedAbstractId := expandedAbstractId s |}
  end.

(** Lines 197-275: the entries of the filtered list, in order. *)
Definition renderEntries (embedded : bool) (s : state)
    (filtered : list Publication) : list vnode :=
  map (renderEntry embedded (expandedBibtexId s) (expandedAbstractId s)) filtered.

(** The list the component shows for a state: filter, then render. *)
Definition renderList (embedded : bool) (s : state)
    (publications : list Publication) : result (list vnode) :=
  filtered ← filteredPublications publications
                (searchQuery s) (selectedYear s) (selectedType s);
  Ok (renderEntries embedded s filtered).

(* ================================================================= *)
(** ** Looking into a rendered entry *)

(** The click handlers of a tree, in document order. *)
Fixpoint actions (n : vnode) : list action :=
  match n with
  | Element _ _ onClick children =>
      option_list onClick ++ List.flat_map actions children
  | _ => []
  end.

(** The texts shown in [pre] blocks. *)
Fixpoint pre_texts (n : vnode) : list string :=
  match n with
  | Element tag _ _ children =>
      if String.eqb tag "pre"
      then List.flat_map (fun c => match c with Text s => [s] | _ => [] end) children
      else List.flat_map pre_texts children
  | _ => []
  end.

(** The texts a click can put on the clipboard. *)
Definition copied (n : vnode) : list string :=
  List.flat_map (fun a => match a with ClipboardWriteText s => [s] | _ => [] end)
    (actions n).

(** The [key] of an element. *)
Definition key_of (n : vnode) : option string :=
  match n with
  | Element _ props _ _ =>
      match find (fun p => String.eqb (fst p) "key") props with
      | Some p => Some (snd p)
      | None => None
      end
  | _ => None
  end.

(** The button that opens and closes the abstract of an entry. *)
Definition is_abstract_toggle (n : vnode) : bool :=
  match n with
  | Element tag _ (Some (SetExpandedAbstractId _)) _ => String.eqb tag "button"
  | _ => false
  end.

(** The expanded abstract: the block of lines 252-254. *)
Definition is_abstract_panel (n : vnode) : bool :=
  match n with
  | Element tag props None _ =>
      String.eqb tag "motion.div" && bool_decide (props = [("className", "mt-4")])
  | _ => false
  end.

(* ================================================================= *)
(** ** The search row and the filter panel (lines 86-193) *)

(** A handler of the toolbar: a click, or a change of the input's value. *)
Inductive handler : Type :=
  | OnClick (a : toolbar_action)
  | OnChange (f : string -> toolbar_action).

(** The value of a prop. *)
Inductive prop_value : Type :=
  | PStr (s : string)
  | PNum (z : Z).

(** An element of the toolbar.  [cn] holds the arguments of the call of
    [cn] ([@/lib/utils], not among the sources) that computes the class
    name, and is empty for a literal class name among the props. *)
#[local] Unset Elimination Schemes.
Inductive control : Type :=
  | Control (tag : string) (props : list (string * prop_value))
            (cn : list string) (on : option handler) (children : list control)
  | Label (s : string)
  | Num (z : Z)
  | Glyph (component : string).
#[local] Set Elimination Schemes.

(** The classes of the selected and of an unselected option. *)
Definition accent : string := "bg-accent text-white".
Definition idle : string := "bg-white dark:bg-neutral-800".

(** [s.slice(n)] *)
Fixpoint string_drop (n : nat) (s : string) : string :=
  match n, s with
  | O, _ => s
  | S n', String _ s' => string_drop n' s'
  | S _, EmptyString => EmptyString
  end.

(** The text that [replace] puts in for an occurrence of a string pattern
    (GetSubstitution of ECMA-262, without captures): in the replacement
    text [$$] stands for a dollar sign, [$&] for the occurrence, [$`] for the
    text before it and [$'] for the text behind it; every other code unit,
    also a [$] that is followed by anything else or by nothing, stands for
    itself. *)
Fixpoint GetSubstitution (matched before after template : string) : string :=
  match template with
  | EmptyString => EmptyString
  | String d tail =>
      if Ascii.eqb d "$" then
        match tail with
        | EmptyString => String d EmptyString
        | String c rest =>
            if Ascii.eqb c "$"
            then String "$" (GetSubstitution matched before after rest)
            else if Ascii.eqb c "&"
            then matched +:+ GetSubstitution matched before after rest
            else if Ascii.eqb c "`"
            then before +:+ GetSubstitution matched before after rest
            else if Ascii.eqb c "'"
            then after +:+ GetSubstitution matched before after rest
            else String d (GetSubstitution matched before after tail)
        end
      else String d (GetSubstitution matched before after tail)
  end.

(** The search of [replace] for the first occurrence of [pat] in [s];
    [before] is the text already passed. *)
Fixpoint replace_from (before s pat rep : string) : string :=
  if startsWith s pat then
    let after := string_drop (String.length pat) s in
    GetSubstitution pat before after rep +:+ after
  else
    match s with
    | EmptyString => EmptyString
    | String c s' =>
        String c (replace_from (before +:+ String c EmptyString) s' pat rep)
    end.

(** [s.replace(pat, rep)] with a string pattern and a replacement text: the
    first occurrence of [pat] is replaced, a text without one is returned
    as it is. *)
Definition String_replace (s pat rep : string) : string :=
  replace_from EmptyString s pat rep.

(** A replacement text without a dollar sign. *)
Definition dollar_free (rep : string) : bool :=
  all_chars (fun c => negb (Ascii.eqb c "$")) rep.

(** Lines 128-138. *)
Definition allYearsButton (selectedYear : year_selection) : control :=
  Control "button" []
    ["px-3 py-1 text-xs rounded-full";
     if bool_decide (selectedYear = AllYears) then accent else idle]
    (Some (OnClick (SetSelectedYear AllYears)))
    [Label "All"].

(** Lines 140-151. *)
Definition yearButton (selectedYear : year_selection) (year : Z) : control :=
  Control "button" [("key", PNum year)]
    ["px-3 py-1 text-xs rounded-full";
     if bool_decide (selectedYear = OneYear year) then accent else idle]
    (Some (OnClick (SetSelectedYear (OneYear year))))
    [Num year].

(** Lines 127-153: the year options. *)
Definition yearOptions (selectedYear : year_selection) (years : list Z)
    : list control :=
  allYearsButton selectedYear :: map (yearButton selectedYear) years.

(** Lines 162-172. *)
Definition allTypesButton (selectedType : string) : control :=
  Control "button" []
    ["px-3 py-1 text-xs rounded-full";
     if String.eqb selectedType all then accent else idle]
    (Some (OnClick (SetSelectedType all)))
    [Label "All"].

(** Lines 174-185. *)
Definition typeButton (selectedType : string) (type : string) : control :=
  Control "button" [("key", PStr type)]
    ["px-3 py-1 text-xs rounded-full capitalize";
     if String.eqb selectedType type then accent else idle]
    (Some (OnClick (SetSelectedType type)))
    [Label (String_replace type "-" " ")].

(** Lines 161-187: the type options. *)
Definition typeOptions (selectedType : string) (types : list string)
    : list control :=
  allTypesButton selectedType :: map (typeButton selectedType) types.

(** Lines 115-190: the filter panel. *)
Definition filterPanel (s : state) (years : list Z) (types : list string)
    : control :=
  Control "motion.div" [("className", PStr "overflow-hidden")] [] None
    [Control "div"
       [("className",
         PStr "p-4 bg-neutral-50 dark:bg-neutral-800/50 rounded-lg border border-neutral-200 dark:border-neutral-800 flex flex-wrap gap-6")]
       [] None
       [Control "div" [("className", PStr "space-y-2")] [] None
          [Control "label"
             [("className", PStr "text-sm font-medium flex items-center")]
             [] None [Glyph "CalendarIcon"; Label " Year"];
           Control "div" [("className", PStr "flex flex-wrap gap-2")] [] None
             (yearOptions (selectedYear s) years)];
        Control "div" [("className", PStr "space-y-2")] [] None
          [Control "label"
             [("className", PStr "text-sm font-medium flex items-center")]
             [] None [Glyph "BookOpenIcon"; Label " Type"];
           Control "div" [("className", PStr "flex flex-wrap gap-2")] [] None
             (typeOptions (selectedType s) types)]]].

(** Lines 87-193: the search row and, when [showFilters] is set, the filter
    panel. *)
Definition toolbar (s : state) (years : list Z) (types : list string)
    : control :=
  Control "div" [("className", PStr "mb-8 space-y-4")] [] None
    [Control "div" [("className", PStr "flex flex-col sm:flex-row gap-4")] []
       None
       [Control "div" [("className", PStr "relative flex-grow")] [] None
          [Glyph "MagnifyingGlassIcon";
           Control "input"
             [("type", PStr "text");
              ("placeholder", PStr "Search publications...");
              ("value", PStr (searchQuery s));
              ("className",
               PStr "w-full pl-10 pr-4 py-2 rounded-lg border border-neutral-200 dark:border-neutral-800 bg-white dark:bg-neutral-900 focus:ring-2 focus:ring-accent focus:border-transparent")]
             [] (Some (OnChange SetSearchQuery)) []];
        Control "button" []
          ["flex items-center justify-center px-4 py-2 rounded-lg border transition-all";
           if showFilters s then "bg-accent text-white border-accent"
           else "bg-white dark:bg-neutral-900 border-neutral-200 dark:border-neutral-800 text-neutral-600 hover:border-accent hover:text-accent"]
          (Some (OnClick (SetShowFilters (negb (showFilters s)))))
          [Glyph "FunnelIcon"; Label "Filters"]];
     Control "AnimatePresence" [] [] None
       (if showFilters s then [filterPanel s years types] else [])].

(** The option carries the class of the selected option. *)
Definition highlighted (c : control) : bool :=
  match c with
  | Control _ _ cn _ _ => bool_decide (accent ∈ cn)
  | _ => false
  end.

(** What a click on the element does. *)
Definition on_click (c : control) : option toolbar_action :=
  match c with
  | Control _ _ _ (Some (OnClick a)) _ => Some a
  | _ => None
  end.

(** The children of the element. *)
Definition children_of (c : control) : list control :=
  match c with
  | Control _ _ _ _ children => children
  | _ => []
  end.

(* ================================================================= *)
(** ** The routes of the site ([generateStaticParams] of the page module) *)

(** An entry of [config.navigation]; of its fields the routes read [type]
    and [target]. *)
Module Nav.
Record item : Type := { type : string; target : string }.
End Nav.

(** A route parameter [{ slug }]. *)
Record Param : Type := { slug : string }.

(** [s.endsWith(suffix)] *)
Definition endsWith (s suffix : string) : bool :=
  (String.length suffix <=? String.length s)%nat
  && String.eqb
       (string_drop (String.length s - String.length suffix) s) suffix.

(** [xs.includes(x)] on an array of strings. *)
Definition array_includes (xs : list string) (x : string) : bool :=
  existsb (String.eqb x) xs.

(** [\s*] before a code unit outside the class: the whole run of white
    space is passed, none of it is given back. *)
Fixpoint skip_white_space (t : list code_unit) : list code_unit :=
  match t with
  | [] => []
  | u :: t' => if is_white_space u then skip_white_space t' else t
  end.

(** The code units [lit] at the start of [t]: the text behind them. *)
Fixpoint match_literal (lit t : list code_unit) : option (list code_unit) :=
  match lit, t with
  | [], _ => Some t
  | _ :: _, [] => None
  | l :: lit', u :: t' => if l =? u then match_literal lit' t' else None
  end.

(** [/^\s*type\s*=/.test(raw)]: without the [m] flag [^] is the start of
    the text.  Neither [t] nor [=] is white space, so the match is found
    without going back. *)
Definition declares_type_first (raw : list code_unit) : bool :=
  match match_literal (code_units "type") (skip_white_space raw) with
  | Some behind =>
      match match_literal (code_units "=") (skip_white_space behind) with
      | Some _ => true
      | None => false
      end
  | None => false
  end.

Section Routes.

(** [getConfig().navigation] *)
Variable navigation : list Nav.item.

(** The names [fs.readdirSync] lists in the content directory (regular
    files), and the text [fs.readFileSync] gives for a name, decoded into
    the code units of a JavaScript string. *)
Variable files : list string.
Variable readFile : string -> list code_unit.

(** Step 1 of the source: the page configurations of the content
    directory. *)
Definition slugsFromContent : list string :=
  map (fun file => String_replace file ".toml" EmptyString)
    (List.filter (fun file => declares_type_first (readFile file))
       (List.filter (fun file => negb (array_includes ["config.toml"] file))
          (List.filter (fun file => endsWith file ".toml") files))).

(** Step 2: the pages of the navigation. *)
Definition slugsFromNav : list string :=
  map Nav.target
    (List.filter
       (fun nav => String.eqb (Nav.type nav) "page"
                   && negb (String.eqb (Nav.target nav) "about"))
       navigation).

(** Step 3: both, without repetition. *)
Definition slugs : list string :=
  set_values (slugsFromNav ++ slugsFromContent).

Definition generateStaticParams : list Param :=
  map (fun slug => {| slug := slug |}) slugs.

End Routes.

(* ================================================================= *)
(** ** Sample data *)

Definition publication (i ty : string) (t : option string) (names : list string)
    (y : Z) (j c : option string) : Publication :=
  {| id := i; type := ty; title := t;
     authors := map (fun n => {| name := n |}) names;
     year := y; journal := j; conference := c;
     description := None; abstract := None; bibtex := None;
     hidden_bib := false |}.

Definition networks_2020 : Publication :=
  publication "smith2020" "article" (Some "Networks of Trust")
    ["John Smith"; "Ada Park"] 2020 (Some "Journal of Games") None.

Definition markets_2021 : Publication :=
  publication "park2021" "inproceedings" (Some "Learning in Markets")
    ["Ada Park"] 2021 None (Some "Conference on Economics").

Definition choice_2020 : Publication :=
  publication "lee2020" "article" (Some "Choice under Risk")
    ["Bo Lee"] 2020 None None.

(** A record without a title. *)
Definition untitled_2019 : Publication :=
  publication "anon2019" "misc" None ["John Smith"] 2019 None None.

Definition dataset : list Publication :=
  [networks_2020; markets_2021; choice_2020].

(** E acute, capital (U+00C9) and small (U+00E9). *)
Definition capital_e_acute : ascii := ascii_of_nat 201.
Definition small_e_acute : ascii := ascii_of_nat 233.

(** A record with a title in Latin-1, in capitals. *)
Definition etude_2018 : Publication :=
  publication "roy2018" "article" (Some (String capital_e_acute "TUDE DES PRIX"))
    ["Eve Roy"] 2018 None None.

(** A record that asks for its BibTeX source to stay hidden. *)
Definition hidden_2022 : Publication :=
  {| id := "ma2022"; type := "article"; title := Some "Hidden Sources";
     authors := [{| name := "Zhenyao Ma" |}]; year := 2022;
     journal := None; conference := None; description := None;
     abstract := None;
     bibtex := Some "@article{ma2022, title={Hidden Sources}, hidden_bib={true}}";
     hidden_bib := true |}.

(** A record whose BibTeX source may be shown. *)
Definition open_2023 : Publication :=
  {| id := "ma2023"; type := "article"; title := Some "Open Sources";
     authors := [{| name := "Zhenyao Ma" |}]; year := 2023;
     journal := None; conference := None; description := None;
     abstract := Some "What is shown can be copied.";
     bibtex := Some "@article{ma2023, title={Open Sources}}";
     hidden_bib := false |}.

(** A second record whose BibTeX source may be shown. *)
Definition reply_2024 : Publication :=
  {| id := "ma2024"; type := "article"; title := Some "A Reply";
     authors := [{| name := "Zhenyao Ma" |}]; year := 2024;
     journal := None; conference := None; description := None;
     abstract := None;
     bibtex := Some "@article{ma2024, title={A Reply}}";
     hidden_bib := false |}.

(** Two records that show their BibTeX source and one that hides it. *)
Definition with_sources : list Publication :=
  [open_2023; reply_2024; hidden_2022].

(** The state after a click on the BibTeX toggle of [open_2023]. *)
Definition open_2023_expanded : state :=
  update initial_state (EntryAction (SetExpandedBibtexId (Some "ma2023"))).

(** The text of a page file that starts with a byte order mark, and of one
    that gives its title before its type. *)
Definition marked_page : list code_unit :=
  65279 :: code_units "type = 'text'".

Definition title_first_page : list code_unit :=
  code_units "title = 'x'" ++ 10 :: code_units "type = 'text'".

(** A store holding the loaded list at address 0. *)
Definition loaded : store := {[ 0%nat := PublicationArray dataset ]}.




(* ================================================================= *)
(** * Properties *)

(** ** Strings *)

Section StringFacts.

Lemma append_nil_l t : EmptyString +:+ t = t.
Proof. reflexivity. Qed.

Lemma append_cons c s t : String c s +:+ t = String c (s +:+ t).
Proof. reflexivity. Qed.

Lemma append_empty_r s : s +:+ EmptyString = s.
Proof. induction s as [|c s IH]; [done | by rewrite append_cons, IH]. Qed.

Lemma append_assoc s t u : (s +:+ t) +:+ u = s +:+ t +:+ u.
Proof. induction s as [|c s IH]; [done | by rewrite !append_cons, IH]. Qed.

Lemma toLowerCase_append s t :
  toLowerCase (s +:+ t) = toLowerCase s +:+ toLowerCase t.
Proof.
  induction s as [|c s IH]; [done|].
  rewrite append_cons. simpl. by rewrite append_cons, IH.
Qed.

(** A lowered text splits where its lowering splits. *)
Lemma toLowerCase_split s : forall x y,
  toLowerCase s = x +:+ y ->
  exists a b, s = a +:+ b /\ toLowerCase a = x /\ toLowerCase b = y.
Proof.
  induction s as [|c s IH]; intros x y Hs.
  - destruct x; [|discriminate]. rewrite append_nil_l in Hs.
    exists EmptyString, EmptyString. by rewrite <- Hs.
  - destruct x as [|d x].
    + rewrite append_nil_l in Hs.
      exists EmptyString, (String c s). by rewrite <- Hs.
    + rewrite append_cons in Hs. simpl in Hs. injection Hs as Hd Hrest.
      destruct (IH _ _ Hrest) as (a & b & -> & Ha & Hb).
      exists (String c a), b. rewrite append_cons. simpl.
      by rewrite Hd, Ha, Hb.
Qed.

Lemma is_upper_range c :
  is_upper c = true <->
  (65 <= nat_of_ascii c <= 90 \/ 192 <= nat_of_ascii c <= 214
   \/ 216 <= nat_of_ascii c <= 222)%nat.
Proof.
  unfold is_upper. cbv zeta.
  rewrite !orb_true_iff, !andb_true_iff, !Nat.leb_le. tauto.
Qed.

Lemma is_upper_alphabet c :
  is_upper c = true <->
  exists first count k : nat, (first, count) ∈ alphabets /\ (k < count)%nat /\
    nat_of_ascii c = (first + k)%nat.
Proof.
  rewrite is_upper_range. unfold alphabets. split.
  - intros [H | [H | H]].
    + exists 65%nat, 26%nat, (nat_of_ascii c - 65)%nat.
      split; [repeat constructor | lia].
    + exists 192%nat, 23%nat, (nat_of_ascii c - 192)%nat.
      split; [repeat constructor | lia].
    + exists 216%nat, 7%nat, (nat_of_ascii c - 216)%nat.
      split; [repeat constructor | lia].
  - intros (first & count & k & Hin & Hk & ->).
    repeat (apply elem_of_cons in Hin as [[= -> ->] | Hin]); [lia..|].
    by apply elem_of_nil in Hin.
Qed.

Lemma alphabets_bound first count k :
  (first, count) ∈ alphabets -> (k < count)%nat ->
  (first + 32 + k < 256)%nat /\
  is_upper (ascii_of_nat (first + k)) = true /\
  is_upper (ascii_of_nat (first + 32 + k)) = false.
Proof.
  intros Hin Hk. unfold alphabets in Hin.
  assert (first + 32 + k < 256)%nat as Hb.
  { repeat (apply elem_of_cons in Hin as [[= -> ->] | Hin]); [lia..|].
    by apply elem_of_nil in Hin. }
  split; [done|]. split.
  - apply is_upper_range. rewrite nat_ascii_embedding by lia.
    repeat (apply elem_of_cons in Hin as [[= -> ->] | Hin]); [lia..|].
    by apply elem_of_nil in Hin.
  - apply not_true_is_false. rewrite is_upper_range.
    rewrite nat_ascii_embedding by lia.
    repeat (apply elem_of_cons in Hin as [[= -> ->] | Hin]); [lia..|].
    by apply elem_of_nil in Hin.
Qed.

Lemma lower_char_upper c :
  is_upper c = true -> lower_char c = ascii_of_nat (nat_of_ascii c + 32).
Proof. unfold lower_char. by intros ->. Qed.

Lemma lower_char_other c : is_upper c = false -> lower_char c = c.
Proof. unfold lower_char. by intros ->. Qed.

Lemma ascii_of_nat_inj m n :
  (m < 256)%nat -> (n < 256)%nat -> ascii_of_nat m = ascii_of_nat n -> m = n.
Proof.
  intros Hm Hn Heq.
  rewrite <- (nat_ascii_embedding m Hm), <- (nat_ascii_embedding n Hn).
  by rewrite Heq.
Qed.

(** Folding to lower case identifies exactly the characters that are the
    same up to case. *)
Lemma lower_char_same_letter c d :
  lower_char c = lower_char d <-> same_letter c d.
Proof.
  pose proof (nat_ascii_bounded c) as Hc.
  pose proof (nat_ascii_bounded d) as Hd.
  split.
  - intros Heq.
    destruct (is_upper c) eqn:Uc, (is_upper d) eqn:Ud.
    + left. rewrite !lower_char_upper in Heq by done.
      apply is_upper_range in Uc, Ud.
      apply ascii_of_nat_inj in Heq; [|lia|lia].
      rewrite <- (ascii_nat_embedding c), <- (ascii_nat_embedding d).
      f_equal. lia.
    + right.
      rewrite lower_char_upper, (lower_char_other d) in Heq by done.
      apply is_upper_alphabet in Uc as (first & count & k & Hin & Hk & Hn).
      exists first, count, k. split; [done|]. split; [done|]. left. split.
      * rewrite <- (ascii_nat_embedding c) at 1. by rewrite Hn.
      * rewrite <- Heq, Hn. f_equal. lia.
    + right.
      rewrite (lower_char_other c), (lower_char_upper d) in Heq by done.
      apply is_upper_alphabet in Ud as (first & count & k & Hin & Hk & Hn).
      exists first, count, k. split; [done|]. split; [done|]. right. split.
      * rewrite <- (ascii_nat_embedding d) at 1. by rewrite Hn.
      * rewrite Heq, Hn. f_equal. lia.
    + left. by rewrite !lower_char_other in Heq.
  - assert (Hfold : forall first count k,
              (first, count) ∈ alphabets -> (k < count)%nat ->
              lower_char (ascii_of_nat (first + k))
              = ascii_of_nat (first + 32 + k) /\
              lower_char (ascii_of_nat (first + 32 + k))
              = ascii_of_nat (first + 32 + k)).
    { intros first count k Hin Hk.
      destruct (alphabets_bound first count k Hin Hk) as (Hb & Hup & Hlow).
      split.
      - rewrite lower_char_upper by done.
        rewrite nat_ascii_embedding by lia. f_equal. lia.
      - by apply lower_char_other. }
    intros [-> | (first & count & k & Hin & Hk & [[-> ->] | [-> ->]])];
      [done | |];
      destruct (Hfold first count k Hin Hk) as [H1 H2]; congruence.
Qed.

Lemma toLowerCase_equal_ignoring_case s t :
  toLowerCase s = toLowerCase t <-> equal_ignoring_case s t.
Proof.
  split.
  - revert t. induction s as [|c s IH]; intros [|d t] Heq;
      simpl in Heq; try discriminate.
    + constructor.
    + injection Heq as Hc Hs. constructor.
      * by apply lower_char_same_letter.
      * by apply IH.
  - induction 1 as [|c d s t Hcd _ IH]; simpl; [done|].
    apply lower_char_same_letter in Hcd. by rewrite Hcd, IH.
Qed.

Lemma startsWith_spec s q :
  startsWith s q = true <-> exists after, s = q +:+ after.
Proof.
  revert s. induction q as [|d q IH]; intros s.
  - split; [intros _; by exists s | by destruct s].
  - destruct s as [|c s]; simpl.
    + split; [done | intros [after Heq]; discriminate].
    + rewrite andb_true_iff, Ascii.eqb_eq, IH. split.
      * intros [-> [after ->]]. by exists after.
      * intros [after Heq]. rewrite append_cons in Heq.
        injection Heq as -> ->. eauto.
Qed.

Lemma includes_spec s q :
  includes s q = true <-> exists before after, s = before +:+ q +:+ after.
Proof.
  induction s as [|c s IH].
  - cbn [includes]. rewrite orb_false_r, startsWith_spec. split.
    + intros [after Heq]. by exists EmptyString, after.
    + intros (before & after & Heq).
      destruct before; [|discriminate]. eauto.
  - cbn [includes]. rewrite orb_true_iff, startsWith_spec, IH. split.
    + intros [[after Heq] | (before & after & ->)].
      * by exists EmptyString, after.
      * by exists (String c before), after.
    + intros (before & after & Heq). destruct before as [|b before].
      * left. by exists after.
      * right. rewrite append_cons in Heq. injection Heq as -> ->. eauto.
Qed.

(** The test of the component is the case-insensitive substring test. *)
Lemma includes_toLowerCase s q :
  includes (toLowerCase s) (toLowerCase q) = true <-> occurs_ignoring_case q s.
Proof.
  rewrite includes_spec. split.
  - intros (x & y & Hs).
    apply toLowerCase_split in Hs as (before & rest & -> & _ & Hrest).
    apply toLowerCase_split in Hrest as (found & after & -> & Hfound & _).
    exists before, found, after. split; [done|].
    by apply toLowerCase_equal_ignoring_case.
  - intros (before & found & after & -> & Heq).
    apply toLowerCase_equal_ignoring_case in Heq.
    exists (toLowerCase before), (toLowerCase after).
    by rewrite !toLowerCase_append, Heq.
Qed.

End StringFacts.

(** ** The filter callback *)

Section FilterFacts.

Lemma truthy_js_or a b : truthy (js_or a b) = truthy a || truthy b.
Proof. unfold js_or. by destruct (truthy a) eqn:Ha; rewrite ?Ha. Qed.

Lemma truthy_js_and a b : truthy (js_and a b) = truthy a && truthy b.
Proof. unfold js_and. by destruct (truthy a) eqn:Ha; rewrite ?Ha. Qed.

Lemma truthy_optional_chain {A} (o : option A) (g : A -> bool) :
  truthy (optional_chain o (fun x => JBool (g x))) = true <->
  exists x, o = Some x /\ g x = true.
Proof.
  destruct o as [x|]; simpl.
  - split; [by exists x | by intros (? & [= <-] & ?)].
  - split; [done | by intros (? & ? & _)].
Qed.

Lemma array_some_spec {A} (f : A -> bool) xs :
  array_some f xs = true <-> exists x, x ∈ xs /\ f x = true.
Proof.
  unfold array_some. rewrite existsb_exists.
  by setoid_rewrite list_elem_of_In.
Qed.

Lemma matchesYear_spec sel pub :
  matchesYear sel pub = true <-> year_criterion sel pub.
Proof.
  unfold matchesYear, year_criterion. destruct sel as [|y].
  - split; [by left | done].
  - rewrite Z.eqb_eq. split.
    + intros <-. by right.
    + by intros [? | [= ->]].
Qed.

Lemma matchesType_spec sel pub :
  matchesType sel pub = true <-> type_criterion sel pub.
Proof.
  unfold matchesType, type_criterion.
  rewrite orb_true_iff, !String.eqb_eq.
  split; (intros [Hall | Heq]; [by left | by right]).
Qed.

(** On a record with a title the search expression evaluates, and is
    truthy exactly when the query occurs in one of the four fields. *)
Lemma matchesSearch_titled q pub t :
  title pub = Some t ->
  exists v, matchesSearch q pub = Ok v /\
            (truthy v = true <-> search_criterion q pub).
Proof.
  intros Ht. unfold matchesSearch. rewrite Ht. simpl.
  eexists. split; [reflexivity|].
  rewrite !truthy_js_or, !orb_true_iff, !truthy_optional_chain. simpl.
  rewrite array_some_spec. unfold search_criterion.
  setoid_rewrite includes_toLowerCase. rewrite Ht.
  split.
  - intros [[[H | H] | H] | H]; eauto 6.
  - intros [(t' & [= <-] & H) | [H | [H | H]]]; eauto.
Qed.

(** A title in Latin-1 capitals is found by a query in small letters. *)
Lemma matchesSearch_latin1 :
  search_criterion (String small_e_acute "tude") etude_2018 /\
  exists v, matchesSearch (String small_e_acute "tude") etude_2018 = Ok v
            /\ truthy v = true.
Proof.
  split.
  - left. eexists. split; [reflexivity|].
    apply includes_toLowerCase. reflexivity.
  - eexists. split; reflexivity.
Qed.

(** On a record without a title the property read throws. *)
Lemma matchesSearch_untitled q pub :
  title pub = None -> exists e, matchesSearch q pub = Throw e.
Proof. intros Ht. unfold matchesSearch. rewrite Ht. simpl. eauto. Qed.

Lemma keep_titled q sely selt pub t :
  title pub = Some t ->
  exists v, keep q sely selt pub = Ok v /\
            (truthy v = true <->
             search_criterion q pub /\ year_criterion sely pub
             /\ type_criterion selt pub).
Proof.
  intros Ht. unfold keep.
  destruct (matchesSearch_titled q pub t Ht) as (v & -> & Hv). simpl.
  eexists. split; [reflexivity|].
  rewrite !truthy_js_and, !andb_true_iff. simpl.
  rewrite Hv, matchesYear_spec, matchesType_spec. tauto.
Qed.

Lemma keep_untitled q sely selt pub :
  title pub = None -> exists e, keep q sely selt pub = Throw e.
Proof.
  intros Ht. unfold keep.
  destruct (matchesSearch_untitled q pub Ht) as [e ->]. simpl. eauto.
Qed.

End FilterFacts.

(** ** [filter] with a callback that may throw *)

Section ArrayFilterFacts.

Context {A : Type} (f : A -> result jsval).

Lemma array_filter_cons x xs :
  array_filter f (x :: xs) =
  match f x with
  | Ok v =>
      match array_filter f xs with
      | Ok rest => Ok (if truthy v then x :: rest else rest)
      | Throw e => Throw e
      end
  | Throw e => Throw e
  end.
Proof. simpl. by destruct (f x). Qed.

(** The call returns when the callback returns on every element. *)
Lemma array_filter_total xs :
  (forall x, x ∈ xs -> exists v, f x = Ok v) ->
  exists out, array_filter f xs = Ok out.
Proof.
  induction xs as [|x xs IH]; intros Hok; [by exists []|].
  rewrite array_filter_cons.
  destruct (Hok x) as [v ->]; [by left|].
  destruct IH as [rest ->]; [|eauto].
  intros y Hy. apply Hok. by right.
Qed.

(** It throws as soon as the callback throws on some element. *)
Lemma array_filter_throws xs x e :
  x ∈ xs -> f x = Throw e -> exists e', array_filter f xs = Throw e'.
Proof.
  induction xs as [|y xs IH]; intros Hx Hfx; [by apply elem_of_nil in Hx|].
  rewrite array_filter_cons.
  apply elem_of_cons in Hx as [<- | Hx].
  - rewrite Hfx. eauto.
  - destruct (f y); [|eauto].
    destruct (IH Hx Hfx) as [e' ->]. eauto.
Qed.

Lemma array_filter_elem_of xs out :
  array_filter f xs = Ok out ->
  forall x, x ∈ out <-> x ∈ xs /\ exists v, f x = Ok v /\ truthy v = true.
Proof.
  revert out. induction xs as [|y xs IH]; intros out Hout x.
  - injection Hout as <-. rewrite !elem_of_nil. tauto.
  - rewrite array_filter_cons in Hout.
    destruct (f y) as [v|] eqn:Hfy; [|discriminate].
    destruct (array_filter f xs) as [rest|]; [|discriminate].
    injection Hout as <-. specialize (IH rest eq_refl x).
    destruct (truthy v) eqn:Hv; rewrite ?elem_of_cons, IH.
    + split.
      * intros [-> | [? ?]]; eauto.
      * intros [[-> | ?] ?]; eauto.
    + split.
      * intros [? ?]; eauto.
      * intros [[-> | ?] (v' & Hv' & Ht)]; [|eauto].
        rewrite Hfy in Hv'. injection Hv' as <-. congruence.
Qed.

Lemma array_filter_sublist xs out :
  array_filter f xs = Ok out -> out `sublist_of` xs.
Proof.
  revert out. induction xs as [|y xs IH]; intros out Hout.
  - injection Hout as <-. constructor.
  - rewrite array_filter_cons in Hout.
    destruct (f y) as [v|]; [|discriminate].
    destruct (array_filter f xs) as [rest|]; [|discriminate].
    injection Hout as <-. specialize (IH rest eq_refl).
    destruct (truthy v); by constructor.
Qed.

(** A callback that is truthy everywhere keeps the whole array. *)
Lemma array_filter_all xs :
  (forall x, x ∈ xs -> exists v, f x = Ok v /\ truthy v = true) ->
  array_filter f xs = Ok xs.
Proof.
  induction xs as [|x xs IH]; intros Hall; [done|].
  rewrite array_filter_cons.
  destruct (Hall x) as (v & -> & ->); [by left|].
  rewrite IH; [done|]. intros y Hy. apply Hall. by right.
Qed.

End ArrayFilterFacts.

(** Occurrences of a record in a list. *)
Lemma sublist_count_occ {A} {dec : EqDecision A} (l k : list A) x :
  l `sublist_of` k ->
  (count_occ dec l x <= count_occ dec k x)%nat.
Proof.
  induction 1 as [|y l k _ IH|y l k _ IH]; simpl; [lia| |];
    destruct (dec y x); lia.
Qed.

(** ** The filtered list *)

Section FilteredPublications.

Lemma keep_on_titled pubs q sely selt :
  Forall has_title pubs ->
  forall pub, pub ∈ pubs -> exists v, keep q sely selt pub = Ok v.
Proof.
  intros Htitled pub Hpub.
  rewrite Forall_forall in Htitled.
  destruct (Htitled pub Hpub) as [t Ht].
  destruct (keep_titled q sely selt pub t Ht) as (v & Hv & _). eauto.
Qed.

Lemma keep_passes_iff pubs q sely selt pub :
  Forall has_title pubs -> pub ∈ pubs ->
  (exists v, keep q sely selt pub = Ok v /\ truthy v = true) <->
  search_criterion q pub /\ year_criterion sely pub /\ type_criterion selt pub.
Proof.
  intros Htitled Hpub.
  rewrite Forall_forall in Htitled.
  destruct (Htitled pub Hpub) as [t Ht].
  destruct (keep_titled q sely selt pub t Ht) as (v & Hv & Hiff).
  rewrite <- Hiff. split.
  - intros (v' & Hv' & Htrue). congruence.
  - eauto.
Qed.

Lemma filteredPublications_total pubs q sely selt :
  Forall has_title pubs ->
  exists out, filteredPublications pubs q sely selt = Ok out.
Proof.
  intros Htitled. apply array_filter_total.
  by apply keep_on_titled.
Qed.

End FilteredPublications.







(** C4, as amended: for every publication list whose records all carry a
    title (journal, conference and the other optional strings may be
    missing) and every query, year and type selection, evaluating the filter
    returns a list and does not throw. *)
Theorem filter_total_on_titled_records pubs q sely selt :
  Forall has_title pubs ->
  exists out, filteredPublications pubs q sely selt = Ok out.
Proof.
  intros Htitled. apply array_filter_total. intros pub Hpub.
  rewrite Forall_forall in Htitled.
  destruct (Htitled pub Hpub) as [t Ht].
  destruct (keep_titled q sely selt pub t Ht) as (v & Hv & _).
  by exists v.
Qed.

Lemma filter_total_on_titled_records_witness :
  Forall has_title dataset /\
  exists out, filteredPublications dataset "park" AllYears all = Ok out.
Proof.
  assert (Htitled : Forall has_title dataset)
    by (repeat constructor; by eexists).
  split; [exact Htitled|].
  exact (filter_total_on_titled_records dataset "park" AllYears all Htitled).
Defined.

(** C4, as stated, fails: a record of the data model of section 3 that
    lacks its optional title makes the filter throw. *)
Lemma filter_throws_on_untitled_record :
  title untitled_2019 = None /\
  filteredPublications [untitled_2019] EmptyString AllYears all =
  Throw (TypeError "Cannot read properties of undefined (reading 'toLowerCase')").
Proof. split; reflexivity. Qed.

(** C6: whenever the filter returns, its output is a subsequence of the
    input list: the records of the input in their order with some left out,
    so every output record occurs in the input and no record occurs more
    often in the output than in the input; and it returns on every list of
    titled records. *)
Theorem filtered_is_subsequence pubs q sely selt :
  (Forall has_title pubs ->
   exists out, filteredPublications pubs q sely selt = Ok out) /\
  (forall out,
     filteredPublications pubs q sely selt = Ok out ->
     out `sublist_of` pubs /\
     (forall pub, pub ∈ out -> pub ∈ pubs) /\
     (forall pub, (count_occ Publication_eq_dec out pub
                   <= count_occ Publication_eq_dec pubs pub)%nat)).
Proof.
  split; [apply filteredPublications_total|].
  intros out Hout.
  assert (Hsub : out `sublist_of` pubs) by by apply array_filter_sublist in Hout.
  split; [done|]. split.
  - intros pub Hpub. by apply (sublist_subseteq _ _ Hsub).
  - intros pub. by apply sublist_count_occ.
Qed.

Lemma filtered_is_subsequence_witness :
  filteredPublications dataset "park" AllYears all
    = Ok [networks_2020; markets_2021] /\
  [networks_2020; markets_2021] `sublist_of` dataset /\
  (forall pub, pub ∈ [networks_2020; markets_2021] -> pub ∈ dataset) /\
  (forall pub, (count_occ Publication_eq_dec [networks_2020; markets_2021] pub
                <= count_occ Publication_eq_dec dataset pub)%nat).
Proof.
  split; [reflexivity|].
  apply (proj2 (filtered_is_subsequence dataset "park" AllYears all)).
  reflexivity.
Defined.

(** C10: on every publication list whose records all have a title, the
    empty query with year "all" and type "all" returns the input list
    unchanged. *)
Theorem neutral_criteria_return_input pubs :
  Forall has_title pubs ->
  filteredPublications pubs EmptyString AllYears all = Ok pubs.
Proof.
  intros Htitled. apply array_filter_all. intros pub Hpub.
  rewrite Forall_forall in Htitled. destruct (Htitled pub Hpub) as [t Ht].
  unfold keep, matchesSearch. rewrite Ht. simpl.
  eexists. split; [reflexivity|].
  rewrite !truthy_js_and, !truthy_js_or. simpl.
  by destruct (toLowerCase t).
Qed.

Lemma neutral_criteria_return_input_witness :
  Forall has_title dataset /\
  filteredPublications dataset EmptyString AllYears all = Ok dataset.
Proof.
  assert (Htitled : Forall has_title dataset)
    by (repeat constructor; by eexists).
  split; [exact Htitled|].
  exact (neutral_criteria_return_input dataset Htitled).
Defined.

(** ** [Set] and [sort] *)

Section SetFacts.

Context {A : Type} `{EqDecision A}.

Lemma set_add_elem_of (seen : list A) x y :
  y ∈ set_add seen x <-> y ∈ seen \/ y = x.
Proof.
  unfold set_add. destruct (decide (x ∈ seen)) as [Hin|Hout].
  - split; [by left | by intros [? | ->]].
  - rewrite elem_of_app, list_elem_of_singleton. tauto.
Qed.

Lemma set_add_NoDup (seen : list A) x : NoDup seen -> NoDup (set_add seen x).
Proof.
  intros Hnd. unfold set_add. destruct (decide (x ∈ seen)) as [Hin|Hout].
  - done.
  - apply NoDup_app. split; [done|]. split; [|apply NoDup_singleton].
    intros y Hy ->%list_elem_of_singleton. contradiction.
Qed.

Lemma fold_set_add_elem_of (xs seen : list A) y :
  y ∈ fold_left set_add xs seen <-> y ∈ seen \/ y ∈ xs.
Proof.
  revert seen. induction xs as [|x xs IH]; intros seen; simpl.
  - rewrite elem_of_nil. tauto.
  - rewrite IH, set_add_elem_of, elem_of_cons. tauto.
Qed.

Lemma fold_set_add_NoDup (xs seen : list A) :
  NoDup seen -> NoDup (fold_left set_add xs seen).
Proof.
  revert seen. induction xs as [|x xs IH]; intros seen Hnd; simpl; [done|].
  by apply IH, set_add_NoDup.
Qed.

(** A [Set] holds exactly the values it was built from, each once. *)
Lemma set_values_elem_of (xs : list A) y : y ∈ set_values xs <-> y ∈ xs.
Proof.
  unfold set_values. rewrite fold_set_add_elem_of, elem_of_nil. tauto.
Qed.

Lemma set_values_NoDup (xs : list A) : NoDup (set_values xs).
Proof. apply fold_set_add_NoDup, NoDup_nil_2. Qed.

End SetFacts.

Section SortFacts.

Context {A : Type} (cmp : A -> A -> Z).

Lemma sort_insert_Permutation x l : sort_insert cmp x l ≡ₚ x :: l.
Proof.
  induction l as [|y l IH]; simpl; [done|].
  destruct (cmp x y <=? 0); [done|].
  rewrite IH. apply Permutation_swap.
Qed.

(** Sorting rearranges, it neither adds nor drops an element. *)
Lemma array_sort_Permutation l : array_sort cmp l ≡ₚ l.
Proof.
  induction l as [|x l IH]; simpl; [done|].
  by rewrite sort_insert_Permutation, IH.
Qed.

(** The comparator is consistent: it orders any two elements, and
    transitively. *)
Hypothesis cmp_total : forall a b, cmp a b <= 0 \/ cmp b a <= 0.
Hypothesis cmp_trans : forall a b c, cmp a b <= 0 -> cmp b c <= 0 -> cmp a c <= 0.

Lemma sort_insert_sorted x l :
  StronglySorted (fun a b => cmp a b <= 0) l ->
  StronglySorted (fun a b => cmp a b <= 0) (sort_insert cmp x l).
Proof.
  induction 1 as [|y l Hsorted IH Hy]; simpl.
  - repeat constructor.
  - destruct (Z.leb_spec (cmp x y) 0) as [Hle|Hgt].
    + constructor; [by constructor|].
      constructor; [done|].
      eapply Forall_impl; [exact Hy|]. intros z Hz. by eapply cmp_trans.
    + constructor; [done|].
      rewrite sort_insert_Permutation. constructor; [|done].
      destruct (cmp_total x y); [lia | done].
Qed.

Lemma array_sort_sorted l :
  StronglySorted (fun a b => cmp a b <= 0) (array_sort cmp l).
Proof.
  induction l as [|x l IH]; simpl; [constructor|].
  by apply sort_insert_sorted.
Qed.

End SortFacts.

(** Without repetitions, an order that is sorted is strictly sorted. *)
Lemma StronglySorted_strict {A} (R S : relation A) l :
  (forall a b, R a b -> a <> b -> S a b) ->
  StronglySorted R l -> NoDup l -> StronglySorted S l.
Proof.
  intros HRS. induction 1 as [|x l _ IH Hx]; intros Hnd; [constructor|].
  apply NoDup_cons in Hnd as [Hout Hnd].
  constructor; [by apply IH|].
  rewrite Forall_forall in Hx |- *. intros y Hy.
  apply HRS; [by apply Hx|]. by intros ->.
Qed.

Section StringOrder.

Lemma default_compare_le x y :
  default_compare x y <= 0 <-> String.le x y.
Proof.
  unfold default_compare, String.le, String.leb.
  destruct (String.compare x y); simpl; split; (done || lia).
Qed.

Lemma default_compare_total x y :
  default_compare x y <= 0 \/ default_compare y x <= 0.
Proof. rewrite !default_compare_le. apply total, _. Qed.

Lemma default_compare_trans x y z :
  default_compare x y <= 0 -> default_compare y z <= 0 ->
  default_compare x z <= 0.
Proof. rewrite !default_compare_le. apply transitivity. Qed.

Lemma default_compare_strict x y :
  default_compare x y <= 0 -> x <> y -> string_lt x y.
Proof.
  unfold default_compare, string_lt.
  destruct (String.compare x y) eqn:Hc; [|done|lia].
  intros _ Hne. by apply String.compare_eq_iff in Hc.
Qed.

End StringOrder.

(** C3: for every loaded publication list, the year options are the
    distinct year values of the list in descending order and the type
    options are the distinct type values of the list in ascending order. *)
Theorem filter_options_are_sorted_distinct_values pubs :
  (StronglySorted (fun a b => a > b) (years pubs) /\
   NoDup (years pubs) /\
   forall y, y ∈ years pubs <-> exists pub, pub ∈ pubs /\ year pub = y)
  /\
  (StronglySorted string_lt (types pubs) /\
   NoDup (types pubs) /\
   forall t, t ∈ types pubs <-> exists pub, pub ∈ pubs /\ type pub = t).
Proof.
  assert (Hmap : forall {B} (f : Publication -> B) (b : B),
            b ∈ map f pubs <-> exists pub, pub ∈ pubs /\ f pub = b).
  { intros B f b. rewrite list_elem_of_In, in_map_iff.
    setoid_rewrite list_elem_of_In. split; intros (pub & ? & ?); eauto. }
  split.
  - assert (Hnd : NoDup (years pubs)).
    { unfold years. rewrite array_sort_Permutation. apply set_values_NoDup. }
    split; [|split; [done|]].
    + eapply StronglySorted_strict; [|apply array_sort_sorted|exact Hnd].
      * intros a b Hab Hne. simpl in Hab. lia.
      * intros a b. lia.
      * intros a b c. lia.
    + intros y. unfold years.
      by rewrite array_sort_Permutation, set_values_elem_of, Hmap.
  - assert (Hnd : NoDup (types pubs)).
    { unfold types. rewrite array_sort_Permutation. apply set_values_NoDup. }
    split; [|split; [done|]].
    + eapply StronglySorted_strict; [|apply array_sort_sorted|exact Hnd].
      * apply default_compare_strict.
      * apply default_compare_total.
      * apply default_compare_trans.
    + intros t. unfold types.
      by rewrite array_sort_Permutation, set_values_elem_of, Hmap.
Qed.

(** ** The rendered entry *)

Section EntryFacts.

Lemma text_child_no_control o :
  existsb (any_node is_bibtex_control) (text_child o) = false.
Proof. by destruct o. Qed.

(** The entry shows a BibTeX control exactly under the guard
    [pub.bibtex && !pub.hidden_bib]. *)
Lemma renderEntry_bibtex_controls embedded eb ea pub :
  any_node is_bibtex_control (renderEntry embedded eb ea pub)
  = str_truthy (bibtex pub) && negb (hidden_bib pub).
Proof.
  unfold renderEntry, when.
  destruct (str_truthy (description pub)), (str_truthy (abstract pub)),
    (str_truthy (bibtex pub)), (hidden_bib pub),
    (is_expanded ea pub), (is_expanded eb pub);
    cbn -[text_child str_or String.eqb];
    rewrite ?existsb_app, ?text_child_no_control; reflexivity.
Qed.

End EntryFacts.

(** C5: for every displayed record with [hidden_bib = true] the rendered
    entry contains neither the BibTeX toggle button nor a part of the
    expanded BibTeX panel, whatever the expansion state; a BibTeX control is
    rendered only when the record has a [bibtex] value and [hidden_bib] is
    false. *)
Theorem bibtex_controls_respect_hidden_bib embedded expandedBibtexId expandedAbstractId pub :
  (hidden_bib pub = true ->
   any_node is_bibtex_control
     (renderEntry embedded expandedBibtexId expandedAbstractId pub) = false)
  /\
  (any_node is_bibtex_control
     (renderEntry embedded expandedBibtexId expandedAbstractId pub) = true ->
   is_Some (bibtex pub) /\ hidden_bib pub = false).
Proof.
  rewrite renderEntry_bibtex_controls. split.
  - intros ->. apply andb_false_r.
  - intros [Hbib Hshown]%andb_true_iff. split.
    + by destruct (bibtex pub).
    + by destruct (hidden_bib pub).
Qed.

Lemma bibtex_controls_respect_hidden_bib_witness :
  hidden_bib hidden_2022 = true /\
  any_node is_bibtex_control
    (renderEntry false (Some "ma2022") None hidden_2022) = false.
Proof.
  split; [reflexivity|].
  apply (proj1 (bibtex_controls_respect_hidden_bib
                  false (Some "ma2022") None hidden_2022)).
  reflexivity.
Defined.

(** ** The store *)

Section StoreFacts.

Lemma bind_Ok {A B} (m : M A) (f : A -> M B) h a h' :
  m h = (Ok a, h') -> (m ≫= f) h = f a h'.
Proof. intros Hm. unfold mbind, M_bind. by rewrite Hm. Qed.

Lemma bind_Throw {A B} (m : M A) (f : A -> M B) h e h' :
  m h = (Throw e, h') -> (m ≫= f) h = (Throw e, h').
Proof. intros Hm. unfold mbind, M_bind. by rewrite Hm. Qed.

Lemma fresh_unused (h : store) : h !! fresh (dom h) = None.
Proof. apply not_elem_of_dom, is_fresh. Qed.

Lemma read_stored {A} `{Stored A} (h : store) l (xs : list A) :
  h !! l = Some (to_object xs) -> read l h = (Ok xs, h).
Proof. intros Hl. unfold read. rewrite Hl. simpl. by rewrite of_to_object. Qed.

(** The object a constructor returns is at an address that held
    nothing. *)
Lemma alloc_new {A} `{Stored A} (h : store) (xs : list A) :
  exists l, alloc xs h = (Ok l, <[l := to_object xs]> h) /\ h !! l = None.
Proof. exists (fresh (dom h)). split; [done | apply fresh_unused]. Qed.

Context {A : Type} `{Stored A} `{EqDecision A}.

Lemma Set_new_new (h : store) arr (xs : list A) :
  h !! arr = Some (to_object xs) ->
  exists l, Set_new (A:=A) arr h = (Ok l, <[l := to_object (set_values xs)]> h)
            /\ h !! l = None.
Proof.
  intros Harr. unfold Set_new.
  rewrite (bind_Ok _ _ _ _ _ (read_stored h arr xs Harr)).
  apply alloc_new.
Qed.

Lemma Array_from_new (h : store) set (xs : list A) :
  h !! set = Some (to_object xs) ->
  exists l, Array_from (A:=A) set h = (Ok l, <[l := to_object xs]> h)
            /\ h !! l = None.
Proof.
  intros Hset. unfold Array_from.
  rewrite (bind_Ok _ _ _ _ _ (read_stored h set xs Hset)).
  apply alloc_new.
Qed.

(** [sort] overwrites the array it is called on. *)
Lemma Array_sort_in_place cmp (h : store) arr (xs : list A) :
  h !! arr = Some (to_object xs) ->
  Array_sort cmp arr h = (Ok arr, <[arr := to_object (array_sort cmp xs)]> h).
Proof.
  intros Harr. unfold Array_sort.
  by rewrite (bind_Ok _ _ _ _ _ (read_stored h arr xs Harr)).
Qed.

Lemma Array_filter_new f (h : store) arr (xs out : list A) :
  h !! arr = Some (to_object xs) ->
  array_filter f xs = Ok out ->
  exists l, Array_filter f arr h = (Ok l, <[l := to_object out]> h)
            /\ h !! l = None.
Proof.
  intros Harr Hout. unfold Array_filter.
  rewrite (bind_Ok _ _ _ _ _ (read_stored h arr xs Harr)).
  unfold lift. erewrite bind_Ok; [|by rewrite Hout].
  apply alloc_new.
Qed.

Lemma Array_filter_throw f (h : store) arr (xs : list A) e :
  h !! arr = Some (to_object xs) ->
  array_filter f xs = Throw e ->
  Array_filter f arr h = (Throw e, h).
Proof.
  intros Harr Hout. unfold Array_filter.
  rewrite (bind_Ok _ _ _ _ _ (read_stored h arr xs Harr)).
  unfold lift. erewrite bind_Throw; [done|by rewrite Hout].
Qed.

End StoreFacts.

Section UniqueSorted.

Context {A B : Type} `{Stored A} `{Stored B} `{EqDecision B}.

Lemma Array_map_new (f : A -> B) (h : store) arr xs :
  h !! arr = Some (to_object xs) ->
  exists l, Array_map f arr h = (Ok l, <[l := to_object (map f xs)]> h)
            /\ h !! l = None.
Proof.
  intros Harr. unfold Array_map.
  rewrite (bind_Ok _ _ _ _ _ (read_stored h arr xs Harr)).
  apply alloc_new.
Qed.

(** Map, de-duplicate, copy, sort: the sorted copy is a new object and
    every object of the store before the call is left as it was. *)
Lemma unique_sorted_new (f : A -> B) cmp (h : store) arr xs :
  h !! arr = Some (to_object xs) ->
  exists l h',
    (mapped ← Array_map f arr;
     set ← Set_new (A:=B) mapped;
     unique ← Array_from (A:=B) set;
     Array_sort cmp unique) h = (Ok l, h')
    /\ h ⊆ h' /\ h !! l = None
    /\ h' !! l = Some (to_object (array_sort cmp (set_values (map f xs)))).
Proof.
  intros Harr.
  destruct (Array_map_new f h arr xs Harr) as (l1 & Hmap & Hl1).
  set (h1 := <[l1 := to_object (map f xs)]> h) in *.
  destruct (Set_new_new (A:=B) h1 l1 (map f xs)) as (l2 & Hset & Hl2).
  { apply lookup_insert_eq. }
  set (h2 := <[l2 := to_object (set_values (map f xs))]> h1) in *.
  destruct (Array_from_new (A:=B) h2 l2 (set_values (map f xs)))
    as (l3 & Hfrom & Hl3).
  { apply lookup_insert_eq. }
  set (h3 := <[l3 := to_object (set_values (map f xs))]> h2) in *.
  exists l3, (<[l3 := to_object (array_sort cmp (set_values (map f xs)))]> h3).
  assert (Hsub : h ⊆ h2).
  { etrans; [by apply insert_subseteq|]. by apply insert_subseteq. }
  split; [|split; [|split]].
  - rewrite (bind_Ok _ _ _ _ _ Hmap), (bind_Ok _ _ _ _ _ Hset),
      (bind_Ok _ _ _ _ _ Hfrom).
    apply Array_sort_in_place. apply lookup_insert_eq.
  - unfold h3. rewrite insert_insert_eq.
    etrans; [exact Hsub|]. by apply insert_subseteq.
  - by eapply lookup_weaken_None.
  - apply lookup_insert_eq.
Qed.

End UniqueSorted.

(** C7: computing the year options, the type options and the filtered list
    leaves the input array as it was, the same records in the same order:
    every object of the store before the evaluation is unchanged after it,
    and the three results are new arrays (holding the values of [years],
    [types] and [filteredPublications]). *)
Theorem derivations_leave_input_unchanged
    (h : store) publications pubs q sely selt :
  h !! publications = Some (PublicationArray pubs) ->
  exists r h',
    derive publications q sely selt h = (r, h') /\
    h' !! publications = Some (PublicationArray pubs) /\
    h ⊆ h' /\
    match r with
    | Ok (ys, ts, fs) =>
        h !! ys = None /\ h !! ts = None /\ h !! fs = None /\
        h' !! ys = Some (NumberArray (years pubs)) /\
        h' !! ts = Some (StringArray (types pubs)) /\
        exists out,
          filteredPublications pubs q sely selt = Ok out /\
          h' !! fs = Some (PublicationArray out)
    | Throw e => filteredPublications pubs q sely selt = Throw e
    end.
Proof.
  intros Hpubs.
  destruct (unique_sorted_new year (fun a b => b - a) h publications pubs)
    as (ys & h1 & Hyears & Hsub1 & Hys & Hys1); [exact Hpubs|].
  assert (Hpubs1 : h1 !! publications = Some (PublicationArray pubs))
    by by eapply lookup_weaken.
  destruct (unique_sorted_new type default_compare h1 publications pubs)
    as (ts & h2 & Htypes & Hsub2 & Hts & Hts2); [exact Hpubs1|].
  assert (Hpubs2 : h2 !! publications = Some (PublicationArray pubs))
    by by eapply lookup_weaken.
  assert (Hsub : h ⊆ h2) by by etrans.
  unfold derive.
  setoid_rewrite (bind_Ok _ _ _ _ _ Hyears).
  setoid_rewrite (bind_Ok _ _ _ _ _ Htypes).
  destruct (filteredPublications pubs q sely selt) as [out|e] eqn:Hfilter.
  - destruct (Array_filter_new (keep q sely selt) h2 publications pubs out)
      as (fs & Hfs & Hfresh); [exact Hpubs2 | exact Hfilter |].
    exists (Ok (ys, ts, fs)), (<[fs := PublicationArray out]> h2).
    assert (Hsub3 : h2 ⊆ <[fs := PublicationArray out]> h2)
      by by apply insert_subseteq.
    split; [by setoid_rewrite (bind_Ok _ _ _ _ _ Hfs)|].
    split; [by eapply lookup_weaken|].
    split; [by etrans|].
    split; [done|].
    split; [by eapply lookup_weaken_None|].
    split; [by eapply lookup_weaken_None|].
    split; [eapply lookup_weaken; [|exact Hsub3]; by eapply lookup_weaken|].
    split; [by eapply lookup_weaken|].
    exists out. split; [done | apply lookup_insert_eq].
  - exists (Throw e), h2.
    split; [|done].
    assert (Hthrow : filteredPublications_memo publications q sely selt h2
                     = (Throw e, h2)).
    { by apply (Array_filter_throw (keep q sely selt) h2 publications pubs). }
    by setoid_rewrite (bind_Throw _ _ _ _ _ Hthrow).
Qed.

Lemma derivations_leave_input_unchanged_witness :
  loaded !! 0%nat = Some (PublicationArray dataset) /\
  exists r h',
    derive 0%nat "park" AllYears all loaded = (r, h') /\
    h' !! 0%nat = Some (PublicationArray dataset) /\
    loaded ⊆ h'.
Proof.
  assert (Hloaded : loaded !! 0%nat = Some (PublicationArray dataset))
    by reflexivity.
  split; [exact Hloaded|].
  destruct (derivations_leave_input_unchanged
              loaded 0%nat dataset "park" AllYears all Hloaded)
    as (r & h' & Hrun & Hsame & Hframe & _).
  exists r, h'. by repeat split.
Defined.

(** ** The parser *)

Section ScanFacts.

Variable absent_year : Z.









End ScanFacts.

Section BraceFacts.













End BraceFacts.

Section EntryShapes.

Variable absent_year : Z.



Lemma no_at_marker_free s : no_at s = true -> marker_free s = true.
Proof.
  induction s as [|c s IH]; [done|]. simpl.
  intros [Hc Hs]%andb_true_iff. apply negb_true_iff in Hc.
  rewrite Hc. by apply IH.
Qed.








End EntryShapes.

Section Soundness.

Variable absent_year : Z.





End Soundness.

(** C8: parsing the single entry
    [@article{k1, author={A and B}, year={2020}, title={T}}] yields exactly
    one record, with id "k1", the authors "A" and "B" in this order, year
    2020 and title "T". *)
Theorem parse_single_article absent_year :
  exists r,
    parseBibTeX absent_year
      "@article{k1, author={A and B}, year={2020}, title={T}}" = [r] /\
    id r = "k1" /\
    authors r = [{| name := "A" |}; {| name := "B" |}] /\
    year r = 2020 /\
    title r = Some "T".
Proof. eexists. split; [vm_compute; reflexivity|]. by repeat split. Qed.






(* ================================================================= *)
(** * Further properties of the component *)

(** ** Queries *)

Section QueryFacts.

Lemma includes_trans s q' q :
  includes s q' = true -> includes q' q = true -> includes s q = true.
Proof.
  rewrite !includes_spec.
  intros (b & a & ->) (b' & a' & ->).
  exists (b +:+ b'), (a' +:+ a). by rewrite !append_assoc.
Qed.

Lemma occurs_ignoring_case_trans q q' s :
  occurs_ignoring_case q q' -> occurs_ignoring_case q' s ->
  occurs_ignoring_case q s.
Proof.
  rewrite <- !includes_toLowerCase. intros Hq Hs. by eapply includes_trans.
Qed.

Lemma search_criterion_narrow q q' pub :
  occurs_ignoring_case q q' ->
  search_criterion q' pub -> search_criterion q pub.
Proof.
  intros Hq [(t & Ht & H) | [(a & Ha & H) | [(j & Hj & H) | (c & Hc & H)]]].
  - left. exists t. split; [done|]. by eapply occurs_ignoring_case_trans.
  - right. left. exists a. split; [done|]. by eapply occurs_ignoring_case_trans.
  - right. right. left. exists j. split; [done|].
    by eapply occurs_ignoring_case_trans.
  - right. right. right. exists c. split; [done|].
    by eapply occurs_ignoring_case_trans.
Qed.

Lemma matchesSearch_lowered q q' pub :
  toLowerCase q = toLowerCase q' -> matchesSearch q pub = matchesSearch q' pub.
Proof. intros Heq. unfold matchesSearch. by rewrite Heq. Qed.

(** The callback returns exactly on the records with a title. *)
Lemma keep_Ok_titled q sely selt pub v :
  keep q sely selt pub = Ok v -> exists t, title pub = Some t.
Proof.
  intros Hv. destruct (title pub) as [t|] eqn:Ht; [by exists t|].
  destruct (keep_untitled q sely selt pub Ht) as [e He]. congruence.
Qed.

End QueryFacts.

(** ** One filter against another *)

Section ArrayFilterCompare.

Context {A : Type} (f g : A -> result jsval).

(** When [g] returns wherever [f] does and is truthy only where [f] is and
    [P] holds, filtering by [g] is filtering by [f] and then by [P]. *)
Lemma array_filter_refine (P : A -> Prop) `{forall x, Decision (P x)} xs out :
  (forall x v, x ∈ xs -> f x = Ok v ->
     exists v', g x = Ok v' /\ (truthy v' = true <-> truthy v = true /\ P x)) ->
  array_filter f xs = Ok out ->
  array_filter g xs = Ok (filter P out).
Proof.
  revert out. induction xs as [|x xs IH]; intros out Hfg Hout.
  - by injection Hout as <-.
  - rewrite array_filter_cons in Hout. rewrite array_filter_cons.
    destruct (f x) as [v|] eqn:Hfx; [|done].
    destruct (array_filter f xs) as [rest|] eqn:Hrest; [|done].
    injection Hout as <-.
    destruct (Hfg x v) as (v' & -> & Hv'); [by left | done |].
    rewrite (IH rest); [|intros y w Hy; apply Hfg; by right|done].
    f_equal. destruct (truthy v) eqn:Hv.
    + rewrite filter_cons. destruct (decide (P x)) as [HP|HP].
      * by rewrite (proj2 Hv' (conj eq_refl HP)).
      * destruct (truthy v') eqn:Hv''; [|done].
        destruct (proj1 Hv' eq_refl) as [_ ?]. contradiction.
    + destruct (truthy v') eqn:Hv''; [|done].
      by destruct (proj1 Hv' eq_refl).
Qed.

(** When [g] returns wherever [f] does and is truthy only where [f] is,
    filtering by [g] keeps a part of what filtering by [f] keeps. *)
Lemma array_filter_narrow xs out :
  (forall x v, x ∈ xs -> f x = Ok v ->
     exists v', g x = Ok v' /\ (truthy v' = true -> truthy v = true)) ->
  array_filter f xs = Ok out ->
  exists out', array_filter g xs = Ok out' /\ out' `sublist_of` out.
Proof.
  revert out. induction xs as [|x xs IH]; intros out Hfg Hout.
  - injection Hout as <-. by exists [].
  - rewrite array_filter_cons in Hout. rewrite array_filter_cons.
    destruct (f x) as [v|] eqn:Hfx; [|done].
    destruct (array_filter f xs) as [rest|] eqn:Hrest; [|done].
    injection Hout as <-.
    destruct (Hfg x v) as (v' & -> & Hv'); [by left | done |].
    destruct (IH rest) as (rest' & -> & Hsub);
      [intros y w Hy; apply Hfg; by right | done |].
    eexists. split; [reflexivity|].
    destruct (truthy v') eqn:Hv''.
    + rewrite (Hv' eq_refl). by constructor.
    + destruct (truthy v); [by constructor | done].
Qed.

End ArrayFilterCompare.

(** X1: in text of code units below 256, upper and lower case in the query
    make no difference: two queries that are equal up to case give the same
    filtered list, or the same exception. *)
Theorem query_case_is_irrelevant pubs q q' sely selt :
  equal_ignoring_case q q' ->
  filteredPublications pubs q sely selt = filteredPublications pubs q' sely selt.
Proof.
  intros Heq%toLowerCase_equal_ignoring_case.
  unfold filteredPublications.
  induction pubs as [|pub pubs IH]; [done|].
  rewrite !array_filter_cons, IH.
  unfold keep. by rewrite (matchesSearch_lowered q q' pub Heq).
Qed.

Lemma query_case_is_irrelevant_witness :
  equal_ignoring_case (String capital_e_acute "Tude")
                      (String small_e_acute "tude") /\
  filteredPublications (etude_2018 :: dataset)
    (String capital_e_acute "Tude") AllYears all
  = Ok [etude_2018] /\
  filteredPublications (etude_2018 :: dataset)
    (String capital_e_acute "Tude") AllYears all
  = filteredPublications (etude_2018 :: dataset)
      (String small_e_acute "tude") AllYears all.
Proof.
  assert (Heq : equal_ignoring_case (String capital_e_acute "Tude")
                                    (String small_e_acute "tude"))
    by (by apply toLowerCase_equal_ignoring_case).
  split; [exact Heq|]. split; [reflexivity|].
  exact (query_case_is_irrelevant (etude_2018 :: dataset) _ _ AllYears all Heq).
Defined.

(** X2: in text of code units below 256, typing more never adds results:
    when the query [q] occurs in the query [q'] (up to case) and the filter
    returns for [q], it returns for [q'] too, a subsequence of the result
    for [q]. *)
Theorem longer_query_narrows pubs q q' sely selt out :
  occurs_ignoring_case q q' ->
  filteredPublications pubs q sely selt = Ok out ->
  exists out',
    filteredPublications pubs q' sely selt = Ok out' /\ out' `sublist_of` out.
Proof.
  intros Hq. apply array_filter_narrow. intros pub v _ Hv.
  destruct (keep_Ok_titled _ _ _ _ _ Hv) as [t Ht].
  destruct (keep_titled q sely selt pub t Ht) as (w & Hw & Hiff).
  destruct (keep_titled q' sely selt pub t Ht) as (v' & Hv' & Hiff').
  exists v'. split; [done|]. intros Htrue.
  assert (w = v) as <- by congruence.
  apply Hiff. apply Hiff' in Htrue as (Hsearch & Hyear & Htype).
  split; [|done]. by eapply search_criterion_narrow.
Qed.

Lemma longer_query_narrows_witness :
  occurs_ignoring_case "ar" "Park" /\
  filteredPublications dataset "ar" AllYears all
    = Ok [networks_2020; markets_2021] /\
  exists out',
    filteredPublications dataset "Park" AllYears all = Ok out'
    /\ out' `sublist_of` [networks_2020; markets_2021].
Proof.
  assert (Hq : occurs_ignoring_case "ar" "Park")
    by (by apply includes_toLowerCase).
  split; [exact Hq|]. split; [reflexivity|].
  exact (longer_query_narrows dataset "ar" "Park" AllYears all
           [networks_2020; markets_2021] Hq eq_refl).
Defined.

(** X3: the filter returns exactly on the lists whose records all have a
    title: one record without a title makes it throw for every query and
    every selection, also when the year or the type selection would leave
    that record out. *)
Theorem filter_returns_iff_all_titled pubs q sely selt :
  (exists out, filteredPublications pubs q sely selt = Ok out)
  <-> Forall has_title pubs.
Proof.
  split; [|apply filteredPublications_total].
  intros [out Hout]. apply Forall_forall. intros pub Hpub.
  destruct (title pub) as [t|] eqn:Ht; [by exists t|].
  destruct (keep_untitled q sely selt pub Ht) as [e He].
  destruct (array_filter_throws _ _ _ _ Hpub He) as [e' He'].
  unfold filteredPublications in Hout. congruence.
Qed.

(** X4: filtering is idempotent: the filtered list, filtered again by the
    same query and selections, is returned whole. *)
Theorem filtering_twice_changes_nothing pubs q sely selt out :
  filteredPublications pubs q sely selt = Ok out ->
  filteredPublications out q sely selt = Ok out.
Proof.
  intros Hout. apply array_filter_all. intros pub Hpub.
  by apply (array_filter_elem_of _ _ _ Hout pub) in Hpub as [_ Hpass].
Qed.

Lemma filtering_twice_changes_nothing_witness :
  filteredPublications dataset "park" AllYears all
    = Ok [networks_2020; markets_2021] /\
  filteredPublications [networks_2020; markets_2021] "park" AllYears all
    = Ok [networks_2020; markets_2021].
Proof.
  split; [reflexivity|].
  exact (filtering_twice_changes_nothing dataset "park" AllYears all
           [networks_2020; markets_2021] eq_refl).
Defined.

(** X5: selecting after searching: the list for a query under a year
    selection, a type selection or both is the list for that query under
    "all"/"all", restricted to the records of that year and that type. *)
Theorem selection_restricts_search_result pubs q out y t :
  filteredPublications pubs q AllYears all = Ok out ->
  filteredPublications pubs q (OneYear y) all
    = Ok (filter (fun pub => year pub = y) out) /\
  (t <> all ->
   filteredPublications pubs q AllYears t
     = Ok (filter (fun pub => type pub = t) out)) /\
  (t <> all ->
   filteredPublications pubs q (OneYear y) t
     = Ok (filter (fun pub => year pub = y /\ type pub = t) out)).
Proof.
  intros Hout.
  assert (Hrefine : forall sely selt (P : Publication -> Prop)
                      `{forall pub, Decision (P pub)},
            (forall pub, year_criterion sely pub /\ type_criterion selt pub
                         <-> P pub) ->
            filteredPublications pubs q sely selt = Ok (filter P out)).
  { intros sely selt P HdecP HP.
    apply (array_filter_refine (keep q AllYears all)); [|exact Hout].
    intros pub v _ Hv.
    destruct (keep_Ok_titled _ _ _ _ _ Hv) as [t' Ht].
    destruct (keep_titled q AllYears all pub t' Ht) as (w & Hw & Hiff).
    destruct (keep_titled q sely selt pub t' Ht) as (v' & Hv' & Hiff').
    exists v'. split; [done|].
    assert (w = v) as <- by congruence.
    rewrite Hiff, Hiff', <- HP. unfold year_criterion, type_criterion.
    intuition. }
  split; [|split].
  - apply Hrefine. intros pub. unfold year_criterion, type_criterion.
    split.
    + intros [[? | [= ->]] _]; done.
    + intros <-. split; [by right | by left].
  - intros Ht. apply Hrefine. intros pub. unfold year_criterion, type_criterion.
    split.
    + by intros [_ [? | ->]].
    + intros <-. split; [by left | by right].
  - intros Ht. apply Hrefine. intros pub. unfold year_criterion, type_criterion.
    split.
    + intros [[? | [= ->]] [? | ->]]; done.
    + intros [<- <-]. split; by right.
Qed.

Lemma selection_restricts_search_result_witness :
  filteredPublications dataset "park" AllYears all
    = Ok [networks_2020; markets_2021] /\
  filteredPublications dataset "park" (OneYear 2021) all
    = Ok (filter (fun pub => year pub = 2021) [networks_2020; markets_2021]).
Proof.
  split; [reflexivity|].
  exact (proj1 (selection_restricts_search_result dataset "park"
                  [networks_2020; markets_2021] 2021 "article" eq_refl)).
Defined.

(** ** The filter options *)

Section OptionFacts.

Lemma elem_of_map_values {B} (f : Publication -> B) pubs (b : B) :
  b ∈ map f pubs <-> exists pub, pub ∈ pubs /\ f pub = b.
Proof.
  rewrite list_elem_of_In, in_map_iff. setoid_rewrite list_elem_of_In.
  split; intros (pub & ? & ?); eauto.
Qed.

Lemma years_elem_of pubs y :
  y ∈ years pubs <-> exists pub, pub ∈ pubs /\ year pub = y.
Proof.
  unfold years.
  by rewrite array_sort_Permutation, set_values_elem_of, elem_of_map_values.
Qed.

Lemma types_elem_of pubs t :
  t ∈ types pubs <-> exists pub, pub ∈ pubs /\ type pub = t.
Proof.
  unfold types.
  by rewrite array_sort_Permutation, set_values_elem_of, elem_of_map_values.
Qed.

Lemma fold_set_add_length {A} `{EqDecision A} (xs seen : list A) :
  (length (fold_left set_add xs seen) <= length seen + length xs)%nat.
Proof.
  revert seen. induction xs as [|x xs IH]; intros seen; simpl; [lia|].
  etrans; [apply IH|]. unfold set_add.
  destruct (decide (x ∈ seen)); rewrite ?length_app; simpl; lia.
Qed.

Lemma set_values_length {A} `{EqDecision A} (xs : list A) :
  (length (set_values xs) <= length xs)%nat.
Proof. apply (fold_set_add_length xs []). Qed.

Lemma years_NoDup pubs : NoDup (years pubs).
Proof. unfold years. rewrite array_sort_Permutation. apply set_values_NoDup. Qed.

Lemma types_NoDup pubs : NoDup (types pubs).
Proof. unfold types. rewrite array_sort_Permutation. apply set_values_NoDup. Qed.

Lemma years_descending pubs :
  StronglySorted (fun a b => b - a <= 0) (years pubs).
Proof. apply array_sort_sorted; intros; lia. Qed.

Lemma types_ascending pubs :
  StronglySorted (fun a b => default_compare a b <= 0) (types pubs).
Proof.
  apply array_sort_sorted;
    [apply default_compare_total | apply default_compare_trans].
Qed.

Lemma default_compare_antisym x y :
  default_compare x y <= 0 -> default_compare y x <= 0 -> x = y.
Proof.
  rewrite !default_compare_le. intros Hxy Hyx.
  by apply (anti_symm String.le).
Qed.

(** Two sorted lists without repetition that hold the same values are
    the same list. *)
Lemma sorted_values_unique {A} `{EqDecision A} (cmp : A -> A -> Z) xs ys :
  (forall a b, cmp a b <= 0 \/ cmp b a <= 0) ->
  (forall a b c, cmp a b <= 0 -> cmp b c <= 0 -> cmp a c <= 0) ->
  (forall a b, cmp a b <= 0 -> cmp b a <= 0 -> a = b) ->
  (forall x, x ∈ xs <-> x ∈ ys) ->
  array_sort cmp (set_values xs) = array_sort cmp (set_values ys).
Proof.
  intros Htotal Htrans Hanti Hsame.
  apply (StronglySorted_unique_strong (fun a b => cmp a b <= 0)).
  - intros a b _ _. apply Hanti.
  - by apply array_sort_sorted.
  - by apply array_sort_sorted.
  - rewrite !array_sort_Permutation.
    apply NoDup_Permutation; [apply set_values_NoDup..|].
    intros x. by rewrite !set_values_elem_of.
Qed.

End OptionFacts.

(** X6: every year option leads somewhere, and a stale one nowhere: with
    the empty query and type "all", selecting a year of the option list
    shows at least one record, of that year; selecting a year that is not
    among the options (the selection survives a change of the list) shows
    nothing, whatever the query and the type. *)
Theorem year_options_are_live pubs y :
  Forall has_title pubs ->
  (y ∈ years pubs ->
   exists out pub,
     filteredPublications pubs EmptyString (OneYear y) all = Ok out /\
     pub ∈ out /\ year pub = y) /\
  (y ∉ years pubs ->
   forall q selt, filteredPublications pubs q (OneYear y) selt = Ok []).
Proof.
  intros Htitled. split.
  - intros (pub & Hpub & Hy)%years_elem_of.
    destruct (filteredPublications_total pubs EmptyString (OneYear y) all Htitled)
      as [out Hout].
    exists out, pub. split; [done|]. split; [|done].
    apply (array_filter_elem_of _ _ _ Hout pub). split; [done|].
    apply (keep_passes_iff pubs); [done..|].
    split; [|split; [right; by rewrite Hy | by left]].
    rewrite Forall_forall in Htitled. destruct (Htitled pub Hpub) as [t Ht].
    left. exists t. split; [done|].
    by exists EmptyString, EmptyString, t; split; [|constructor].
  - intros Hstale q selt.
    destruct (filteredPublications_total pubs q (OneYear y) selt Htitled)
      as [out Hout].
    rewrite Hout. f_equal. destruct out as [|pub out]; [done|]. exfalso.
    assert (Hin : pub ∈ pub :: out) by by left.
    apply (array_filter_elem_of _ _ _ Hout pub) in Hin as [Hpub Hpass].
    apply (keep_passes_iff pubs q (OneYear y) selt pub Htitled Hpub) in Hpass
      as (_ & [? | [= Hy]] & _); [done|].
    apply Hstale, years_elem_of. eauto.
Qed.

Lemma year_options_are_live_witness :
  Forall has_title dataset /\
  (2019 ∉ years dataset ->
   forall q selt, filteredPublications dataset q (OneYear 2019) selt = Ok []).
Proof.
  assert (Htitled : Forall has_title dataset)
    by (repeat constructor; by eexists).
  split; [exact Htitled|].
  exact (proj2 (year_options_are_live dataset 2019 Htitled)).
Defined.

(** X7: every type option leads somewhere: with the empty query and year
    "all", selecting a type of the option list shows at least one record
    of that type, and only records of that type unless the type is the
    string "all" itself; a type other than "all" that is not among the
    options shows nothing. *)
Theorem type_options_are_live pubs t :
  Forall has_title pubs ->
  (t ∈ types pubs ->
   exists out pub,
     filteredPublications pubs EmptyString AllYears t = Ok out /\
     pub ∈ out /\ type pub = t /\
     (t <> all -> forall pub', pub' ∈ out -> type pub' = t)) /\
  (t ∉ types pubs -> t <> all ->
   forall q sely, filteredPublications pubs q sely t = Ok []).
Proof.
  intros Htitled. split.
  - intros (pub & Hpub & Ht)%types_elem_of.
    destruct (filteredPublications_total pubs EmptyString AllYears t Htitled)
      as [out Hout].
    exists out, pub. split; [done|]. split; [|split; [done|]].
    + apply (array_filter_elem_of _ _ _ Hout pub). split; [done|].
      apply (keep_passes_iff pubs); [done..|].
      split; [|split; [by left | right; by rewrite Ht]].
      rewrite Forall_forall in Htitled. destruct (Htitled pub Hpub) as [s Hs].
      left. exists s. split; [done|].
      by exists EmptyString, EmptyString, s; split; [|constructor].
    + intros Hne pub' Hin.
      apply (array_filter_elem_of _ _ _ Hout pub') in Hin as [Hpub' Hpass].
      by apply (keep_passes_iff pubs EmptyString AllYears t pub' Htitled Hpub')
        in Hpass as (_ & _ & [? | ->]).
  - intros Hstale Hne q sely.
    destruct (filteredPublications_total pubs q sely t Htitled) as [out Hout].
    rewrite Hout. f_equal. destruct out as [|pub out]; [done|]. exfalso.
    assert (Hin : pub ∈ pub :: out) by by left.
    apply (array_filter_elem_of _ _ _ Hout pub) in Hin as [Hpub Hpass].
    apply (keep_passes_iff pubs q sely t pub Htitled Hpub) in Hpass
      as (_ & _ & [? | Ht]); [done|].
    apply Hstale, types_elem_of. eauto.
Qed.

Lemma type_options_are_live_witness :
  Forall has_title dataset /\
  "article" ∈ types dataset /\
  exists out pub,
    filteredPublications dataset EmptyString AllYears "article" = Ok out /\
    pub ∈ out /\ type pub = "article" /\
    ("article" <> all -> forall pub', pub' ∈ out -> type pub' = "article").
Proof.
  assert (Htitled : Forall has_title dataset)
    by (repeat constructor; by eexists).
  assert (Hin : "article" ∈ types dataset) by (by left).
  split; [exact Htitled|]. split; [exact Hin|].
  exact (proj1 (type_options_are_live dataset "article" Htitled) Hin).
Defined.

(** X8: the options depend only on which values occur: two lists with the
    same year values have the same year options, two lists with the same
    type values the same type options; so neither the order of the list nor
    repeated records change the options. *)
Theorem options_depend_on_values_only pubs pubs' :
  ((forall y, y ∈ map year pubs <-> y ∈ map year pubs') ->
   years pubs = years pubs') /\
  ((forall t, t ∈ map type pubs <-> t ∈ map type pubs') ->
   types pubs = types pubs') /\
  (pubs ≡ₚ pubs' -> years pubs = years pubs' /\ types pubs = types pubs').
Proof.
  assert (Hyears : (forall y, y ∈ map year pubs <-> y ∈ map year pubs') ->
                   years pubs = years pubs').
  { intros Hsame. unfold years.
    apply sorted_values_unique; [intros; lia..|done]. }
  assert (Htypes : (forall t, t ∈ map type pubs <-> t ∈ map type pubs') ->
                   types pubs = types pubs').
  { intros Hsame. unfold types.
    apply sorted_values_unique; [|exact default_compare_trans| |done].
    - apply default_compare_total.
    - apply default_compare_antisym. }
  split; [done|]. split; [done|].
  intros Hperm. split.
  - apply Hyears. intros y. rewrite !elem_of_map_values.
    by setoid_rewrite Hperm.
  - apply Htypes. intros t. rewrite !elem_of_map_values.
    by setoid_rewrite Hperm.
Qed.

Lemma options_depend_on_values_only_witness :
  [markets_2021; networks_2020; choice_2020] ≡ₚ dataset /\
  years [markets_2021; networks_2020; choice_2020] = years dataset /\
  types [markets_2021; networks_2020; choice_2020] = types dataset.
Proof.
  assert (Hperm : [markets_2021; networks_2020; choice_2020] ≡ₚ dataset)
    by apply Permutation_swap.
  split; [exact Hperm|].
  exact (proj2 (proj2 (options_depend_on_values_only _ _)) Hperm).
Defined.

(** X9: the first year option is the latest year of the list: the option
    list is empty exactly for the empty publication list, is never longer
    than the publication list, and its first element is the year of some
    record and no record has a later year. *)
Theorem first_year_option_is_latest pubs :
  (years pubs = [] <-> pubs = []) /\
  (length (years pubs) <= length pubs)%nat /\
  (forall y rest,
     years pubs = y :: rest ->
     (exists pub, pub ∈ pubs /\ year pub = y) /\
     forall pub, pub ∈ pubs -> year pub <= y).
Proof.
  split; [|split].
  - split.
    + intros Hnil. destruct pubs as [|pub pubs]; [done|]. exfalso.
      assert (Hin : year pub ∈ years (pub :: pubs)).
      { apply years_elem_of. exists pub. split; [by left | done]. }
      rewrite Hnil in Hin. by apply elem_of_nil in Hin.
    + by intros ->.
  - unfold years. rewrite array_sort_Permutation.
    etrans; [apply set_values_length|]. by rewrite length_map.
  - intros y rest Hyears. split.
    + apply years_elem_of. rewrite Hyears. by left.
    + intros pub Hpub.
      assert (Hin : year pub ∈ y :: rest).
      { rewrite <- Hyears. apply years_elem_of. eauto. }
      pose proof (years_descending pubs) as Hsorted. rewrite Hyears in Hsorted.
      apply StronglySorted_inv in Hsorted as [_ Hy].
      apply elem_of_cons in Hin as [-> | Hin]; [lia|].
      rewrite Forall_forall in Hy. specialize (Hy _ Hin). simpl in Hy. lia.
Qed.

Lemma first_year_option_is_latest_witness :
  years dataset = [2021; 2020] /\
  (exists pub, pub ∈ dataset /\ year pub = 2021) /\
  forall pub, pub ∈ dataset -> year pub <= 2021.
Proof.
  split; [reflexivity|].
  exact (proj2 (proj2 (first_year_option_is_latest dataset)) 2021 [2020] eq_refl).
Defined.

(** ** Entries, their handlers and the list *)

Section EntryHandlers.

Lemma text_child_actions o : List.flat_map actions (text_child o) = [].
Proof. by destruct o. Qed.

Lemma text_child_pre_texts o : List.flat_map pre_texts (text_child o) = [].
Proof. by destruct o. Qed.

Lemma text_child_texts o :
  List.flat_map (fun c => match c with Text s => [s] | _ => [] end) (text_child o)
  = option_list o.
Proof. by destruct o. Qed.

Lemma text_child_no_abstract_toggle o :
  existsb (any_node is_abstract_toggle) (text_child o) = false.
Proof. by destruct o. Qed.

Lemma text_child_no_abstract_panel o :
  existsb (any_node is_abstract_panel) (text_child o) = false.
Proof. by destruct o. Qed.

Lemma text_child_no_toggle o :
  existsb (any_node is_bibtex_toggle) (text_child o) = false.
Proof. by destruct o. Qed.

Lemma text_child_no_panel_part o :
  existsb (any_node is_bibtex_panel_part) (text_child o) = false.
Proof. by destruct o. Qed.

Ltac entry_cases embedded eb ea pub :=
  unfold renderEntry, when;
  destruct (str_truthy (description pub)), (str_truthy (abstract pub)),
    (str_truthy (bibtex pub)), (hidden_bib pub),
    (is_expanded ea pub), (is_expanded eb pub);
  cbn -[text_child str_or String.eqb toggled bool_decide];
  rewrite ?existsb_app, ?flat_map_app, ?app_nil_r;
  cbn -[text_child str_or String.eqb toggled bool_decide];
  rewrite ?text_child_actions, ?text_child_pre_texts, ?text_child_texts,
    ?text_child_no_abstract_toggle, ?text_child_no_abstract_panel,
    ?text_child_no_toggle, ?text_child_no_panel_part;
  try reflexivity.

(** The handlers of an entry: the abstract toggle, the BibTeX toggle and
    the copy button, each under its guard. *)
Lemma renderEntry_actions embedded eb ea pub :
  actions (renderEntry embedded eb ea pub)
  = (if str_truthy (abstract pub)
     then [SetExpandedAbstractId (toggled ea pub)] else [])
    ++ (if str_truthy (bibtex pub) && negb (hidden_bib pub)
        then [SetExpandedBibtexId (toggled eb pub)] else [])
    ++ (if is_expanded eb pub && str_truthy (bibtex pub) && negb (hidden_bib pub)
        then [ClipboardWriteText (default EmptyString (bibtex pub))] else []).
Proof. entry_cases embedded eb ea pub. Qed.

Lemma renderEntry_pre_texts embedded eb ea pub :
  pre_texts (renderEntry embedded eb ea pub)
  = if is_expanded eb pub && str_truthy (bibtex pub) && negb (hidden_bib pub)
    then option_list (bibtex pub) else [].
Proof. entry_cases embedded eb ea pub. Qed.

Lemma renderEntry_bibtex_toggle embedded eb ea pub :
  any_node is_bibtex_toggle (renderEntry embedded eb ea pub)
  = str_truthy (bibtex pub) && negb (hidden_bib pub).
Proof. entry_cases embedded eb ea pub. Qed.

Lemma renderEntry_bibtex_panel embedded eb ea pub :
  any_node is_bibtex_panel_part (renderEntry embedded eb ea pub)
  = is_expanded eb pub && str_truthy (bibtex pub) && negb (hidden_bib pub).
Proof. entry_cases embedded eb ea pub. Qed.

Lemma renderEntry_abstract_toggle embedded eb ea pub :
  any_node is_abstract_toggle (renderEntry embedded eb ea pub)
  = str_truthy (abstract pub).
Proof. entry_cases embedded eb ea pub. Qed.

Lemma renderEntry_abstract_panel embedded eb ea pub :
  any_node is_abstract_panel (renderEntry embedded eb ea pub)
  = is_expanded ea pub && str_truthy (abstract pub).
Proof. entry_cases embedded eb ea pub. Qed.

Lemma is_expanded_spec expanded pub :
  is_expanded expanded pub = true <-> expanded = Some (id pub).
Proof. unfold is_expanded. apply bool_decide_eq_true. Qed.

Lemma is_expanded_toggled expanded pub :
  is_expanded (toggled expanded pub) pub = negb (is_expanded expanded pub).
Proof.
  unfold toggled. destruct (is_expanded expanded pub) eqn:He; simpl.
  - done.
  - by apply is_expanded_spec.
Qed.

Lemma is_expanded_toggled_other expanded pub other :
  id other <> id pub -> is_expanded (toggled expanded pub) other = false.
Proof.
  intros Hne. unfold toggled.
  destruct (is_expanded expanded pub); apply bool_decide_eq_false; congruence.
Qed.

Lemma str_truthy_Some o :
  str_truthy o = true <-> exists s, o = Some s /\ s <> EmptyString.
Proof.
  destruct o as [s|]; simpl.
  - rewrite negb_true_iff, String.eqb_neq. split; [eauto|].
    by intros (? & [= <-] & ?).
  - split; [done | by intros (? & ? & _)].
Qed.

End EntryHandlers.

(** X10: the abstract controls depend on the abstract alone: the entry
    holds the abstract toggle exactly when the record has a non-empty
    abstract, and the abstract panel exactly when, in addition, the entry is
    the expanded one; [hidden_bib], [bibtex] and the BibTeX expansion play no
    part. *)
Theorem abstract_controls_follow_the_abstract
    embedded expandedBibtexId expandedAbstractId pub :
  (any_node is_abstract_toggle
     (renderEntry embedded expandedBibtexId expandedAbstractId pub) = true
   <-> exists a, abstract pub = Some a /\ a <> EmptyString)
  /\
  (any_node is_abstract_panel
     (renderEntry embedded expandedBibtexId expandedAbstractId pub) = true
   <-> expandedAbstractId = Some (id pub)
       /\ exists a, abstract pub = Some a /\ a <> EmptyString).
Proof.
  rewrite renderEntry_abstract_toggle, renderEntry_abstract_panel.
  rewrite andb_true_iff, is_expanded_spec, str_truthy_Some. done.
Qed.

(** X11: the BibTeX toggle always does the right thing: whenever the panel
    of an entry is shown, its toggle is shown too and a click on it closes
    the panel (sets the expanded id to null); whenever the toggle is shown
    without the panel, a click opens the panel of this very entry. *)
Theorem bibtex_toggle_matches_panel
    embedded expandedBibtexId expandedAbstractId pub :
  (any_node is_bibtex_panel_part
     (renderEntry embedded expandedBibtexId expandedAbstractId pub) = true ->
   any_node is_bibtex_toggle
     (renderEntry embedded expandedBibtexId expandedAbstractId pub) = true /\
   SetExpandedBibtexId None
     ∈ actions (renderEntry embedded expandedBibtexId expandedAbstractId pub))
  /\
  (any_node is_bibtex_toggle
     (renderEntry embedded expandedBibtexId expandedAbstractId pub) = true ->
   any_node is_bibtex_panel_part
     (renderEntry embedded expandedBibtexId expandedAbstractId pub) = false ->
   SetExpandedBibtexId (Some (id pub))
     ∈ actions (renderEntry embedded expandedBibtexId expandedAbstractId pub))
  /\
  (forall v,
     SetExpandedBibtexId v
       ∈ actions (renderEntry embedded expandedBibtexId expandedAbstractId pub) ->
     v = toggled expandedBibtexId pub).
Proof.
  rewrite renderEntry_bibtex_toggle, renderEntry_bibtex_panel,
    renderEntry_actions.
  unfold toggled.
  destruct (is_expanded expandedBibtexId pub),
    (str_truthy (bibtex pub) && negb (hidden_bib pub)) eqn:Hshown,
    (str_truthy (abstract pub));
    rewrite <- ?andb_assoc, ?Hshown; simpl;
    (split; [|split]); try done;
    try (intros; split; [done|]); try (by repeat constructor);
    intros v Hin;
    repeat (apply elem_of_cons in Hin as [Hin|Hin]);
    try (by apply elem_of_nil in Hin); congruence.
Qed.

Lemma bibtex_toggle_matches_panel_witness :
  any_node is_bibtex_toggle
    (renderEntry false None None open_2023) = true /\
  any_node is_bibtex_panel_part
    (renderEntry false None None open_2023) = false /\
  SetExpandedBibtexId (Some (id open_2023))
    ∈ actions (renderEntry false None None open_2023).
Proof.
  split; [reflexivity|]. split; [reflexivity|].
  apply (proj1 (proj2 (bibtex_toggle_matches_panel false None None open_2023)));
    reflexivity.
Defined.

(** X12: what the copy button copies is what the panel shows: in every
    entry the texts a click can put on the clipboard are the texts shown in
    the [pre] block, namely the record's [bibtex], unchanged, when the panel
    is shown and nothing otherwise. *)
Theorem copy_button_copies_what_is_shown
    embedded expandedBibtexId expandedAbstractId pub :
  copied (renderEntry embedded expandedBibtexId expandedAbstractId pub)
  = pre_texts (renderEntry embedded expandedBibtexId expandedAbstractId pub)
  /\
  (any_node is_bibtex_panel_part
     (renderEntry embedded expandedBibtexId expandedAbstractId pub) = true ->
   exists b,
     bibtex pub = Some b /\
     pre_texts (renderEntry embedded expandedBibtexId expandedAbstractId pub)
     = [b])
  /\
  (any_node is_bibtex_panel_part
     (renderEntry embedded expandedBibtexId expandedAbstractId pub) = false ->
   copied (renderEntry embedded expandedBibtexId expandedAbstractId pub) = []).
Proof.
  unfold copied.
  rewrite renderEntry_bibtex_panel, renderEntry_pre_texts, renderEntry_actions.
  destruct (is_expanded expandedBibtexId pub),
    (str_truthy (bibtex pub)) eqn:Hbib, (hidden_bib pub),
    (str_truthy (abstract pub)); simpl;
    (split; [|split; [try done | try done]]);
    try (destruct (bibtex pub) as [b|]; [|done]);
    try done; intros _; by exists b.
Qed.

Lemma copy_button_copies_what_is_shown_witness :
  any_node is_bibtex_panel_part
    (renderEntry false (Some "ma2023") None open_2023) = true /\
  exists b,
    bibtex open_2023 = Some b /\
    pre_texts (renderEntry false (Some "ma2023") None open_2023) = [b].
Proof.
  split; [reflexivity|].
  apply (proj1 (proj2 (copy_button_copies_what_is_shown
                         false (Some "ma2023") None open_2023))).
  reflexivity.
Defined.

Section ListFacts.

Lemma sublist_map {A B} (f : A -> B) (l k : list A) :
  l `sublist_of` k -> map f l `sublist_of` map f k.
Proof. induction 1; simpl; by constructor. Qed.

Lemma key_of_renderEntry embedded eb ea pub :
  key_of (renderEntry embedded eb ea pub) = Some (id pub).
Proof. reflexivity. Qed.

Lemma renderList_Ok embedded s pubs nodes :
  renderList embedded s pubs = Ok nodes ->
  exists out,
    filteredPublications pubs (searchQuery s) (selectedYear s) (selectedType s)
      = Ok out /\
    nodes = renderEntries embedded s out.
Proof.
  unfold renderList.
  destruct (filteredPublications pubs _ _ _) as [out|]; [|done].
  intros [= <-]. by exists out.
Qed.

(** Among entries with distinct ids at most one shows its panel. *)
Lemma panels_of_distinct_ids embedded s out :
  NoDup (map id out) ->
  (length (filter (fun n => any_node is_bibtex_panel_part n = true)
             (renderEntries embedded s out)) <= 1)%nat.
Proof.
  unfold renderEntries.
  induction out as [|pub out IH]; intros Hnd; [simpl; lia|].
  simpl in Hnd. apply NoDup_cons in Hnd as [Hout Hnd].
  cbn [map]. rewrite filter_cons.
  destruct (decide _) as [Hshown|_]; [|by apply IH].
  rewrite renderEntry_bibtex_panel in Hshown.
  apply andb_true_iff in Hshown as [[Hexp _]%andb_true_iff _].
  apply is_expanded_spec in Hexp.
  assert (Hnone : filter (fun n => any_node is_bibtex_panel_part n = true)
            (map (renderEntry embedded (expandedBibtexId s)
                    (expandedAbstractId s)) out) = []).
  { clear IH Hnd. induction out as [|other out IH]; [done|].
    cbn [map]. rewrite filter_cons.
    destruct (decide _) as [Hshown|_].
    - rewrite renderEntry_bibtex_panel in Hshown.
      apply andb_true_iff in Hshown as [[Hexp' _]%andb_true_iff _].
      apply is_expanded_spec in Hexp'.
      exfalso. apply Hout. simpl.
      replace (id pub) with (id other) by congruence. by left.
    - apply IH. intros Hin. apply Hout. by right. }
  rewrite Hnone. simpl. lia.
Qed.

End ListFacts.

(** X13: the keys of the list are the ids of the filtered records, in
    order: the rendered list has one entry per filtered record, keyed by the
    record's id, so a publication list with distinct ids never yields two
    entries with the same key. *)
Theorem entry_keys_are_record_ids embedded s pubs nodes :
  renderList embedded s pubs = Ok nodes ->
  (exists out,
     filteredPublications pubs (searchQuery s) (selectedYear s) (selectedType s)
       = Ok out /\
     map key_of nodes = map (fun pub => Some (id pub)) out) /\
  (NoDup (map id pubs) -> NoDup (map key_of nodes)).
Proof.
  intros (out & Hout & ->)%renderList_Ok.
  assert (Hkeys : map key_of (renderEntries embedded s out)
                  = map (fun pub => Some (id pub)) out).
  { unfold renderEntries. rewrite map_map. done. }
  split; [by exists out|].
  intros Hnd. rewrite Hkeys.
  apply array_filter_sublist in Hout.
  apply (sublist_map id) in Hout.
  rewrite <- (map_map id Some).
  apply (NoDup_fmap_2 Some). by eapply sublist_NoDup.
Qed.

Lemma entry_keys_are_record_ids_witness :
  renderList false initial_state dataset
    = Ok (renderEntries false initial_state dataset) /\
  NoDup (map id dataset) /\
  NoDup (map key_of (renderEntries false initial_state dataset)).
Proof.
  assert (Hrun : renderList false initial_state dataset
                 = Ok (renderEntries false initial_state dataset))
    by reflexivity.
  assert (Hnd : NoDup (map id dataset)) by compute_done.
  split; [exact Hrun|]. split; [exact Hnd|].
  exact (proj2 (entry_keys_are_record_ids false initial_state dataset _ Hrun) Hnd).
Defined.

(** X14: one BibTeX panel at a time: in the list rendered from a
    publication list with distinct ids, at most one entry shows its BibTeX
    panel, whatever the state. *)
Theorem one_bibtex_panel_at_a_time embedded s pubs nodes :
  NoDup (map id pubs) ->
  renderList embedded s pubs = Ok nodes ->
  (length (filter (fun n => any_node is_bibtex_panel_part n = true) nodes)
   <= 1)%nat.
Proof.
  intros Hnd (out & Hout & ->)%renderList_Ok.
  apply panels_of_distinct_ids.
  apply array_filter_sublist in Hout.
  apply (sublist_map id) in Hout. by eapply sublist_NoDup.
Qed.

Lemma one_bibtex_panel_at_a_time_witness :
  NoDup (map id with_sources) /\
  renderList false open_2023_expanded with_sources
    = Ok (renderEntries false open_2023_expanded with_sources) /\
  length (filter (fun n => any_node is_bibtex_toggle n = true)
            (renderEntries false open_2023_expanded with_sources)) = 2%nat /\
  length (filter (fun n => any_node is_bibtex_panel_part n = true)
            (renderEntries false open_2023_expanded with_sources)) = 1%nat /\
  (length (filter (fun n => any_node is_bibtex_panel_part n = true)
             (renderEntries false open_2023_expanded with_sources)) <= 1)%nat.
Proof.
  assert (Hnd : NoDup (map id with_sources)) by compute_done.
  split; [exact Hnd|]. split; [reflexivity|].
  split; [reflexivity|]. split; [reflexivity|].
  exact (one_bibtex_panel_at_a_time false open_2023_expanded with_sources
           _ Hnd eq_refl).
Defined.

(** X15: a click on the BibTeX toggle of an entry flips the panel of that
    entry and closes the panel of every entry with another id; a second
    click on the same toggle, as rendered after the first, brings the
    panel of the entry back to where it was. *)
Theorem bibtex_toggle_click embedded s pub v :
  SetExpandedBibtexId v
    ∈ actions (renderEntry embedded (expandedBibtexId s)
                 (expandedAbstractId s) pub) ->
  is_expanded
    (expandedBibtexId (update s (EntryAction (SetExpandedBibtexId v)))) pub
  = negb (is_expanded (expandedBibtexId s) pub)
  /\
  (forall other,
     id other <> id pub ->
     is_expanded
       (expandedBibtexId (update s (EntryAction (SetExpandedBibtexId v))))
       other = false)
  /\
  (forall v',
     SetExpandedBibtexId v'
       ∈ actions
           (renderEntry embedded
              (expandedBibtexId (update s (EntryAction (SetExpandedBibtexId v))))
              (expandedAbstractId (update s (EntryAction (SetExpandedBibtexId v))))
              pub) ->
     is_expanded
       (expandedBibtexId
          (update (update s (EntryAction (SetExpandedBibtexId v)))
             (EntryAction (SetExpandedBibtexId v')))) pub
     = is_expanded (expandedBibtexId s) pub).
Proof.
  assert (Honly : forall eb ea w,
            SetExpandedBibtexId w ∈ actions (renderEntry embedded eb ea pub) ->
            w = toggled eb pub).
  { intros eb ea w. rewrite renderEntry_actions.
    destruct (str_truthy (abstract pub)),
      (str_truthy (bibtex pub) && negb (hidden_bib pub)) eqn:Hshown;
      rewrite <- ?andb_assoc, ?Hshown;
      destruct (is_expanded eb pub); simpl; intros Hin;
      repeat (apply elem_of_cons in Hin as [Hin|Hin]);
      try (by apply elem_of_nil in Hin); congruence. }
  intros ->%Honly. simpl. split; [apply is_expanded_toggled|].
  split; [intros other; apply is_expanded_toggled_other|].
  intros v' ->%Honly.
  by rewrite !is_expanded_toggled, negb_involutive.
Qed.

Lemma bibtex_toggle_click_witness :
  SetExpandedBibtexId (Some "ma2023")
    ∈ actions (renderEntry false (expandedBibtexId initial_state)
                 (expandedAbstractId initial_state) open_2023) /\
  is_expanded
    (expandedBibtexId
       (update initial_state (EntryAction (SetExpandedBibtexId (Some "ma2023")))))
    open_2023
  = negb (is_expanded (expandedBibtexId initial_state) open_2023).
Proof.
  assert (Hin : SetExpandedBibtexId (Some "ma2023")
                  ∈ actions (renderEntry false (expandedBibtexId initial_state)
                               (expandedAbstractId initial_state) open_2023))
    by (cbv; right; left).
  split; [exact Hin|].
  exact (proj1 (bibtex_toggle_click false initial_state open_2023 _ Hin)).
Defined.

(** X16: the effect that runs when the publication list changes closes the
    BibTeX panel and nothing else: after it no entry shows a BibTeX panel,
    while the abstract panel of every entry, the BibTeX toggle of every
    entry and the filtered list of every publication list are as before
    (the query, the year and type selections and the abstract expansion are
    not reset). *)
Theorem publications_effect_closes_bibtex_only embedded s pub pubs :
  any_node is_bibtex_panel_part
    (renderEntry embedded
       (expandedBibtexId (update s PublicationsEffect))
       (expandedAbstractId (update s PublicationsEffect)) pub) = false
  /\
  any_node is_abstract_panel
    (renderEntry embedded
       (expandedBibtexId (update s PublicationsEffect))
       (expandedAbstractId (update s PublicationsEffect)) pub)
  = any_node is_abstract_panel
      (renderEntry embedded (expandedBibtexId s) (expandedAbstractId s) pub)
  /\
  any_node is_bibtex_toggle
    (renderEntry embedded
       (expandedBibtexId (update s PublicationsEffect))
       (expandedAbstractId (update s PublicationsEffect)) pub)
  = any_node is_bibtex_toggle
      (renderEntry embedded (expandedBibtexId s) (expandedAbstractId s) pub)
  /\
  filteredPublications pubs
    (searchQuery (update s PublicationsEffect))
    (selectedYear (update s PublicationsEffect))
    (selectedType (update s PublicationsEffect))
  = filteredPublications pubs (searchQuery s) (selectedYear s) (selectedType s).
Proof.
  rewrite !renderEntry_bibtex_panel, !renderEntry_abstract_panel,
    !renderEntry_bibtex_toggle.
  by repeat split.
Qed.

(** ** The filter panel *)

Section OptionButtons.

Lemma accent_in_classes base (chosen : bool) :
  base <> accent ->
  accent ∈ [base; if chosen then accent else idle] <-> chosen = true.
Proof.
  intros Hbase. rewrite !elem_of_cons, elem_of_nil. destruct chosen.
  - split; [done | intros _; right; by left].
  - split; [|done]. intros [? | [? | []]]; [congruence | discriminate].
Qed.

Lemma highlighted_allYearsButton sel :
  highlighted (allYearsButton sel) = true <-> sel = AllYears.
Proof.
  unfold highlighted, allYearsButton.
  rewrite bool_decide_eq_true, accent_in_classes by done.
  apply bool_decide_eq_true.
Qed.

Lemma highlighted_yearButton sel y :
  highlighted (yearButton sel y) = true <-> sel = OneYear y.
Proof.
  unfold highlighted, yearButton.
  rewrite bool_decide_eq_true, accent_in_classes by done.
  apply bool_decide_eq_true.
Qed.

Lemma highlighted_allTypesButton sel :
  highlighted (allTypesButton sel) = true <-> sel = all.
Proof.
  unfold highlighted, allTypesButton.
  rewrite bool_decide_eq_true, accent_in_classes by done.
  apply String.eqb_eq.
Qed.

Lemma highlighted_typeButton sel t :
  highlighted (typeButton sel t) = true <-> sel = t.
Proof.
  unfold highlighted, typeButton.
  rewrite bool_decide_eq_true, accent_in_classes by done.
  apply String.eqb_eq.
Qed.

(** Among buttons made from distinct values, the highlighted ones are the
    one made from the selected value, if there is one. *)
Lemma highlighted_among_distinct {A} `{EqDecision A}
    (button : A -> control) (sel : A) (xs : list A) :
  (forall x, highlighted (button x) = true <-> sel = x) ->
  NoDup xs ->
  filter (fun c => highlighted c = true) (map button xs)
  = if decide (sel ∈ xs) then [button sel] else [].
Proof.
  intros Hbutton. induction xs as [|x xs IH]; intros Hnd; [done|].
  apply NoDup_cons in Hnd as [Hx Hnd].
  cbn [map]. rewrite filter_cons, (IH Hnd).
  destruct (decide (highlighted (button x) = true)) as [Hhl|Hhl].
  - apply Hbutton in Hhl as <-.
    rewrite (decide_True (P := sel ∈ sel :: xs)) by by left.
    by rewrite (decide_False (P := sel ∈ xs)).
  - destruct (decide (sel ∈ xs)) as [Hin|Hout].
    + by rewrite (decide_True (P := sel ∈ x :: xs)) by by right.
    + rewrite (decide_False (P := sel ∈ x :: xs)); [done|].
      intros [-> | ?]%elem_of_cons; [|done].
      apply Hhl. by apply Hbutton.
Qed.

Lemma highlighted_none {A} (button : A -> control) (xs : list A) :
  (forall x, x ∈ xs -> highlighted (button x) = false) ->
  filter (fun c => highlighted c = true) (map button xs) = [].
Proof.
  induction xs as [|x xs IH]; intros Hnone; [done|].
  cbn [map]. rewrite filter_cons.
  rewrite decide_False by (rewrite Hnone; [done | by left]).
  apply IH. intros y Hy. apply Hnone. by right.
Qed.

Lemma map_lookup {A B} (f : A -> B) (l : list A) i :
  map f l !! i = f <$> l !! i.
Proof. revert i. induction l as [|x l IH]; intros [|i]; simpl; auto. Qed.

End OptionButtons.

(** X17: exactly one year option is highlighted: among the "All" button
    and the year buttons the component renders for a publication list, the
    highlighted ones are the single button of the selection when the
    selection is "all" or one of the list's years, and none when the
    selected year is not a year of the list. *)
Theorem one_year_option_is_highlighted pubs sel :
  (sel = AllYears ->
   filter (fun c => highlighted c = true) (yearOptions sel (years pubs))
   = [allYearsButton sel]) /\
  (forall y,
     sel = OneYear y -> y ∈ years pubs ->
     filter (fun c => highlighted c = true) (yearOptions sel (years pubs))
     = [yearButton sel y]) /\
  (forall y,
     sel = OneYear y -> y ∉ years pubs ->
     filter (fun c => highlighted c = true) (yearOptions sel (years pubs))
     = []).
Proof.
  unfold yearOptions. split; [|split].
  - intros ->. rewrite filter_cons.
    rewrite decide_True by by apply highlighted_allYearsButton.
    f_equal. apply highlighted_none. intros y _.
    apply not_true_is_false. by rewrite highlighted_yearButton.
  - intros y -> Hy. rewrite filter_cons.
    rewrite decide_False by by rewrite highlighted_allYearsButton.
    rewrite (highlighted_among_distinct (yearButton (OneYear y)) y (years pubs)).
    + by rewrite decide_True.
    + intros z. rewrite highlighted_yearButton. split; congruence.
    + apply years_NoDup.
  - intros y -> Hy. rewrite filter_cons.
    rewrite decide_False by by rewrite highlighted_allYearsButton.
    apply highlighted_none. intros z Hz.
    apply not_true_is_false. rewrite highlighted_yearButton.
    intros [= ->]. contradiction.
Qed.

Lemma one_year_option_is_highlighted_witness :
  2020 ∈ years dataset /\
  filter (fun c => highlighted c = true)
    (yearOptions (OneYear 2020) (years dataset))
  = [yearButton (OneYear 2020) 2020].
Proof.
  assert (Hin : 2020 ∈ years dataset) by (cbv; right; left).
  split; [exact Hin|].
  exact (proj1 (proj2 (one_year_option_is_highlighted dataset (OneYear 2020)))
           2020 eq_refl Hin).
Defined.

(** X18: the type options and the word "all": when no record has the type
    "all", exactly the button of the selection is highlighted among the
    "All" button and the type buttons (none for a selected type that is not
    a type of the list); when some record has the type "all", selecting
    "all" highlights two buttons, "All" and the button of that type. *)
Theorem type_options_and_the_word_all pubs sel :
  (all ∉ types pubs ->
   (sel = all ->
    filter (fun c => highlighted c = true) (typeOptions sel (types pubs))
    = [allTypesButton sel]) /\
   (sel <> all -> sel ∈ types pubs ->
    filter (fun c => highlighted c = true) (typeOptions sel (types pubs))
    = [typeButton sel sel]) /\
   (sel <> all -> sel ∉ types pubs ->
    filter (fun c => highlighted c = true) (typeOptions sel (types pubs))
    = [])) /\
  (all ∈ types pubs -> sel = all ->
   filter (fun c => highlighted c = true) (typeOptions sel (types pubs))
   = [allTypesButton sel; typeButton sel all]).
Proof.
  unfold typeOptions.
  assert (Hcount : forall t,
            filter (fun c => highlighted c = true) (map (typeButton t) (types pubs))
            = if decide (t ∈ types pubs) then [typeButton t t] else []).
  { intros t.
    apply (highlighted_among_distinct (typeButton t) t (types pubs)).
    - intros z. apply highlighted_typeButton.
    - apply types_NoDup. }
  split.
  - intros Hno. split; [|split].
    + intros ->. rewrite filter_cons.
      rewrite decide_True by by apply highlighted_allTypesButton.
      by rewrite Hcount, decide_False.
    + intros Hne Hin. rewrite filter_cons.
      rewrite decide_False by by rewrite highlighted_allTypesButton.
      by rewrite Hcount, decide_True.
    + intros Hne Hout. rewrite filter_cons.
      rewrite decide_False by by rewrite highlighted_allTypesButton.
      by rewrite Hcount, decide_False.
  - intros Hin ->. rewrite filter_cons.
    rewrite decide_True by by apply highlighted_allTypesButton.
    by rewrite Hcount, decide_True.
Qed.

Lemma type_options_and_the_word_all_witness :
  (all ∉ types dataset) /\
  ("article" <> all) /\
  ("article" ∈ types dataset) /\
  filter (fun c => highlighted c = true) (typeOptions "article" (types dataset))
  = [typeButton "article" "article"].
Proof.
  assert (Hno : all ∉ types dataset) by compute_done.
  assert (Hne : "article" <> all) by done.
  assert (Hin : "article" ∈ types dataset) by (by left).
  split; [exact Hno|]. split; [exact Hne|]. split; [exact Hin|].
  exact (proj1 (proj2 (proj1 (type_options_and_the_word_all dataset "article")
                         Hno)) Hne Hin).
Defined.

(** X19: a click on a year option selects what the option shows: after the
    click on the i-th option, the i-th option and no other is highlighted,
    and when the option shows the year [y], every record of the list
    filtered in the new state has the year [y]. *)
Theorem year_option_click pubs s i c :
  yearOptions (selectedYear s) (years pubs) !! i = Some c ->
  exists a,
    on_click c = Some a /\
    (forall j c',
       yearOptions (selectedYear (update s (ToolbarAction a))) (years pubs) !! j
         = Some c' ->
       (highlighted c' = true <-> j = i)) /\
    (forall y out,
       children_of c = [Num y] ->
       filteredPublications pubs
         (searchQuery (update s (ToolbarAction a)))
         (selectedYear (update s (ToolbarAction a)))
         (selectedType (update s (ToolbarAction a))) = Ok out ->
       forall pub, pub ∈ out -> year pub = y).
Proof.
  unfold yearOptions. destruct i as [|i]; simpl.
  - intros [= <-]. exists (SetSelectedYear AllYears). split; [done|].
    split; [|done]. simpl. intros [|j] c'; simpl.
    + intros [= <-]. by rewrite highlighted_allYearsButton.
    + rewrite map_lookup. destruct (years pubs !! j) as [y'|]; [|done].
      intros [= <-]. by rewrite highlighted_yearButton.
  - rewrite map_lookup. destruct (years pubs !! i) as [y|] eqn:Hy; [|done].
    intros [= <-]. exists (SetSelectedYear (OneYear y)). split; [done|].
    simpl. split.
    + intros [|j] c'; simpl.
      * intros [= <-]. by rewrite highlighted_allYearsButton.
      * rewrite map_lookup. destruct (years pubs !! j) as [y'|] eqn:Hy'; [|done].
        intros [= <-]. rewrite highlighted_yearButton. split.
        -- intros [= ->]. f_equal.
           by apply (NoDup_lookup (years pubs) j i y' (years_NoDup pubs)).
        -- intros [= ->]. congruence.
    + intros y' out [= <-] Hout pub Hpub.
      apply (array_filter_elem_of _ _ _ Hout pub) in Hpub
        as [Hpub (v & Hv & Htrue)].
      destruct (keep_Ok_titled _ _ _ _ _ Hv) as [t Ht].
      destruct (keep_titled (searchQuery s) (OneYear y) (selectedType s) pub t Ht)
        as (w & Hw & Hiff).
      assert (w = v) as <- by congruence.
      by apply Hiff in Htrue as (_ & [? | [= ->]] & _).
Qed.

Lemma year_option_click_witness :
  yearOptions (selectedYear initial_state) (years dataset) !! 2%nat
    = Some (yearButton AllYears 2020) /\
  exists a,
    on_click (yearButton AllYears 2020) = Some a /\
    (forall j c',
       yearOptions (selectedYear (update initial_state (ToolbarAction a)))
         (years dataset) !! j = Some c' ->
       (highlighted c' = true <-> j = 2%nat)) /\
    (forall y out,
       children_of (yearButton AllYears 2020) = [Num y] ->
       filteredPublications dataset
         (searchQuery (update initial_state (ToolbarAction a)))
         (selectedYear (update initial_state (ToolbarAction a)))
         (selectedType (update initial_state (ToolbarAction a))) = Ok out ->
       forall pub, pub ∈ out -> year pub = y).
Proof.
  split; [reflexivity|].
  exact (year_option_click dataset initial_state 2 _ eq_refl).
Defined.

(** ** [replace] and the routes *)

Section ReplaceFacts.

Lemma string_drop_append pat after :
  string_drop (String.length pat) (pat +:+ after) = after.
Proof. induction pat as [|c pat IH]; [by destruct after | by rewrite append_cons]. Qed.

Lemma length_append s t :
  String.length (s +:+ t) = (String.length s + String.length t)%nat.
Proof.
  induction s as [|c s IH]; [done|]. rewrite append_cons. simpl. by rewrite IH.
Qed.

Lemma includes_unfold s pat :
  includes s pat
  = startsWith s pat
    || match s with
       | EmptyString => false
       | String _ s' => includes s' pat
       end.
Proof. by destruct s. Qed.

Lemma replace_from_unfold pre s pat rep :
  replace_from pre s pat rep
  = if startsWith s pat
    then GetSubstitution pat pre (string_drop (String.length pat) s) rep
         +:+ string_drop (String.length pat) s
    else match s with
         | EmptyString => EmptyString
         | String c s' =>
             String c (replace_from (pre +:+ String c EmptyString) s' pat rep)
         end.
Proof. by destruct s. Qed.

Lemma replace_from_absent s pat rep : forall pre,
  includes s pat = false -> replace_from pre s pat rep = s.
Proof.
  induction s as [|c s IH]; intros pre Hs;
    rewrite includes_unfold in Hs; apply orb_false_iff in Hs as [Hstart Hrest];
    rewrite replace_from_unfold, Hstart; [done|].
  by rewrite (IH _ Hrest).
Qed.

Lemma replace_from_at_start pre s pat rep :
  startsWith s pat = true ->
  exists after,
    s = pat +:+ after /\
    replace_from pre s pat rep = GetSubstitution pat pre after rep +:+ after.
Proof.
  intros Hstart. rewrite replace_from_unfold, Hstart.
  apply startsWith_spec in Hstart as [after ->].
  exists after. by rewrite string_drop_append.
Qed.

Lemma append_snoc pre c before :
  (pre +:+ String c EmptyString) +:+ before = pre +:+ String c before.
Proof. by rewrite append_assoc, append_cons, append_nil_l. Qed.

(** With an occurrence, the first one is replaced and the rest of the text
    is kept. *)
Lemma replace_from_first s pat rep : forall pre,
  includes s pat = true ->
  exists before after,
    s = before +:+ pat +:+ after /\
    replace_from pre s pat rep
    = before +:+ GetSubstitution pat (pre +:+ before) after rep +:+ after /\
    forall before' after',
      s = before' +:+ pat +:+ after' ->
      (String.length before <= String.length before')%nat.
Proof.
  induction s as [|c s IH]; intros pre Hs; rewrite includes_unfold in Hs;
    destruct (startsWith _ pat) eqn:Hstart.
  - destruct (replace_from_at_start pre _ _ rep Hstart) as (after & Heq & Hr).
    exists EmptyString, after. rewrite Hr, append_empty_r.
    split; [exact Heq|]. split; [done|]. intros; simpl; lia.
  - done.
  - destruct (replace_from_at_start pre _ _ rep Hstart) as (after & Heq & Hr).
    exists EmptyString, after. rewrite Hr, append_empty_r.
    split; [exact Heq|]. split; [done|]. intros; simpl; lia.
  - simpl in Hs. rewrite replace_from_unfold, Hstart.
    destruct (IH (pre +:+ String c EmptyString) Hs)
      as (before & after & Heq & Hr & Hmin).
    exists (String c before), after. rewrite Hr, Heq, append_snoc.
    split; [done|]. split; [done|].
    intros [|c' before'] after' Heq'.
    + rewrite append_nil_l in Heq'.
      assert (startsWith (String c s) pat = true)
        by (apply startsWith_spec; exists after'; by rewrite Heq, Heq').
      congruence.
    + rewrite !append_cons in Heq'. injection Heq' as _ Heq'.
      rewrite <- Heq in Heq'. specialize (Hmin _ _ Heq'). simpl. lia.
Qed.

(** Without an occurrence of the pattern nothing is replaced. *)
Lemma String_replace_absent s pat rep :
  includes s pat = false -> String_replace s pat rep = s.
Proof. apply replace_from_absent. Qed.

Lemma String_replace_first s pat rep :
  includes s pat = true ->
  exists before after,
    s = before +:+ pat +:+ after /\
    String_replace s pat rep
    = before +:+ GetSubstitution pat before after rep +:+ after /\
    forall before' after',
      s = before' +:+ pat +:+ after' ->
      (String.length before <= String.length before')%nat.
Proof. apply (replace_from_first s pat rep EmptyString). Qed.

(** A replacement text without a dollar sign is put in as it is. *)
Lemma GetSubstitution_dollar_free matched before after rep :
  dollar_free rep = true -> GetSubstitution matched before after rep = rep.
Proof.
  unfold dollar_free. induction rep as [|d rep IH]; intros Hrep; [done|].
  simpl in Hrep. apply andb_true_iff in Hrep as [Hd Hrep].
  apply negb_true_iff in Hd. cbn [GetSubstitution]. rewrite Hd.
  by rewrite (IH Hrep).
Qed.

End ReplaceFacts.

(** X20: [replace] with a string pattern, as the component uses it for the
    type labels and the page module for the slugs, replaces the first
    occurrence only.  A text without the pattern is returned unchanged,
    whatever the replacement text.  Otherwise the text before the first
    occurrence and the text behind it are kept, so later occurrences stay,
    and the occurrence gives way to the expansion of the replacement text:
    to the replacement text itself when it holds no dollar sign, and to the
    occurrence itself for [$&], which leaves the text as it was.  For a
    type label, where a hyphen gives way to a blank, the label is as long
    as the type. *)
Theorem replace_changes_the_first_occurrence s pat rep :
  (includes s pat = false -> String_replace s pat rep = s) /\
  (includes s pat = true ->
   exists before after,
     s = before +:+ pat +:+ after /\
     String_replace s pat rep
     = before +:+ GetSubstitution pat before after rep +:+ after /\
     (dollar_free rep = true ->
      String_replace s pat rep = before +:+ rep +:+ after) /\
     forall before' after',
       s = before' +:+ pat +:+ after' ->
       (String.length before <= String.length before')%nat) /\
  String_replace s pat "$&" = s /\
  String.length (String_replace s "-" " ") = String.length s.
Proof.
  split; [apply String_replace_absent|]. split; [|split].
  - intros Hs.
    destruct (String_replace_first s pat rep Hs)
      as (before & after & Heq & Hr & Hmin).
    exists before, after. split; [done|]. split; [done|]. split; [|done].
    intros Hrep. by rewrite Hr, GetSubstitution_dollar_free.
  - destruct (includes s pat) eqn:Hs.
    + destruct (String_replace_first s pat "$&" Hs)
        as (before & after & Heq & Hr & _).
      rewrite Hr. cbn [GetSubstitution Ascii.eqb Bool.eqb].
      by rewrite append_empty_r.
    + by apply String_replace_absent.
  - destruct (includes s "-") eqn:Hs.
    + destruct (String_replace_first s "-" " " Hs)
        as (before & after & Heq & Hr & _).
      rewrite Hr, Heq. by rewrite !length_append.
    + by rewrite String_replace_absent.
Qed.

Lemma replace_changes_the_first_occurrence_witness :
  includes "book-chapter-draft" "-" = true /\
  dollar_free " " = true /\
  exists before after,
    "book-chapter-draft" = before +:+ "-" +:+ after /\
    String_replace "book-chapter-draft" "-" " " = before +:+ " " +:+ after /\
    forall before' after',
      "book-chapter-draft" = before' +:+ "-" +:+ after' ->
      (String.length before <= String.length before')%nat.
Proof.
  split; [reflexivity|]. split; [reflexivity|].
  destruct (proj1 (proj2 (replace_changes_the_first_occurrence
                            "book-chapter-draft" "-" " ")) eq_refl)
    as (before & after & Heq & _ & Hverbatim & Hmin).
  exists before, after. split; [exact Heq|].
  split; [exact (Hverbatim eq_refl) | exact Hmin].
Defined.

Section RouteFacts.

Lemma elem_of_List_filter {A} (f : A -> bool) (l : list A) x :
  x ∈ List.filter f l <-> x ∈ l /\ f x = true.
Proof. by rewrite !list_elem_of_In, filter_In. Qed.

Lemma elem_of_List_map {A B} (f : A -> B) (l : list A) y :
  y ∈ map f l <-> exists x, x ∈ l /\ f x = y.
Proof.
  rewrite list_elem_of_In, in_map_iff. setoid_rewrite list_elem_of_In.
  split; intros (x & ? & ?); eauto.
Qed.

Lemma slugsFromNav_elem_of navigation s :
  s ∈ slugsFromNav navigation <->
  exists nav, nav ∈ navigation /\ Nav.type nav = "page"
              /\ Nav.target nav <> "about" /\ Nav.target nav = s.
Proof.
  unfold slugsFromNav. rewrite elem_of_List_map.
  setoid_rewrite elem_of_List_filter.
  setoid_rewrite andb_true_iff. setoid_rewrite negb_true_iff.
  setoid_rewrite String.eqb_eq. setoid_rewrite String.eqb_neq.
  split.
  - intros (nav & (? & ? & ?) & ?). by exists nav.
  - intros (nav & ? & ? & ? & ?). by exists nav.
Qed.

Lemma slugsFromContent_elem_of files readFile s :
  s ∈ slugsFromContent files readFile <->
  exists file, file ∈ files /\ endsWith file ".toml" = true
               /\ file <> "config.toml"
               /\ declares_type_first (readFile file) = true
               /\ String_replace file ".toml" EmptyString = s.
Proof.
  unfold slugsFromContent. rewrite elem_of_List_map.
  setoid_rewrite elem_of_List_filter. setoid_rewrite elem_of_List_filter.
  setoid_rewrite elem_of_List_filter.
  assert (Hconfig : forall file,
            negb (array_includes ["config.toml"] file) = true
            <-> file <> "config.toml").
  { intros file. unfold array_includes. simpl.
    rewrite orb_false_r, negb_true_iff. apply String.eqb_neq. }
  setoid_rewrite Hconfig.
  split.
  - intros (file & (((? & ?) & ?) & ?) & ?). by exists file.
  - intros (file & ? & ? & ? & ? & ?). by exists file.
Qed.

End RouteFacts.

(** X21: the static routes: the parameters hold no slug twice; a slug is
    among them exactly when it is the target of a navigation entry of type
    "page" other than "about", or the name, with its first ".toml" removed,
    of a file of the content directory that ends in ".toml", is not
    "config.toml" and declares a type first; the slugs of the navigation
    come first, in the order of the navigation. *)
Theorem static_params_are_the_pages navigation files readFile :
  NoDup (map slug (generateStaticParams navigation files readFile)) /\
  (forall s,
     s ∈ map slug (generateStaticParams navigation files readFile) <->
     (exists nav, nav ∈ navigation /\ Nav.type nav = "page"
                  /\ Nav.target nav <> "about" /\ Nav.target nav = s) \/
     (exists file, file ∈ files /\ endsWith file ".toml" = true
                   /\ file <> "config.toml"
                   /\ declares_type_first (readFile file) = true
                   /\ String_replace file ".toml" EmptyString = s)) /\
  (exists rest,
     map slug (generateStaticParams navigation files readFile)
     = set_values (slugsFromNav navigation) ++ rest).
Proof.
  assert (Hslugs : map slug (generateStaticParams navigation files readFile)
                   = slugs navigation files readFile).
  { unfold generateStaticParams. rewrite map_map. simpl. apply map_id. }
  rewrite Hslugs. unfold slugs. split; [apply set_values_NoDup|]. split.
  - intros s.
    by rewrite set_values_elem_of, elem_of_app, slugsFromNav_elem_of,
      slugsFromContent_elem_of.
  - unfold set_values. rewrite fold_left_app.
    generalize (fold_left set_add (slugsFromNav navigation) []).
    generalize (slugsFromContent files readFile).
    intros more. induction more as [|x more IH]; intros seen; simpl.
    + exists []. by rewrite app_nil_r.
    + destruct (IH (set_add seen x)) as [rest ->].
      unfold set_add. destruct (decide (x ∈ seen)); [by exists rest|].
      exists (x :: rest). by rewrite <- app_assoc.
Qed.

Section SlugFacts.

(** Before the first character of the pattern shows up, no occurrence
    starts. *)
Lemma replace_from_behind before p pat after rep : forall pre,
  all_chars (fun c => negb (Ascii.eqb c p)) before = true ->
  replace_from pre (before +:+ String p pat +:+ after) (String p pat) rep
  = before +:+ GetSubstitution (String p pat) (pre +:+ before) after rep
    +:+ after.
Proof.
  induction before as [|c before IH]; intros pre Hbefore.
  - rewrite !append_nil_l, append_empty_r.
    destruct (replace_from_at_start pre (String p pat +:+ after)
                (String p pat) rep) as (after' & Heq & ->).
    + apply startsWith_spec. by exists after.
    + by apply (inj (String.app (String p pat))) in Heq as <-.
  - simpl in Hbefore. apply andb_true_iff in Hbefore as [Hc Hbefore].
    apply negb_true_iff in Hc.
    rewrite !(append_cons c before), replace_from_unfold.
    cbn [startsWith]. rewrite Hc. cbn [andb].
    by rewrite (IH _ Hbefore), append_snoc.
Qed.

Lemma String_replace_behind before p pat after rep :
  all_chars (fun c => negb (Ascii.eqb c p)) before = true ->
  String_replace (before +:+ String p pat +:+ after) (String p pat) rep
  = before +:+ GetSubstitution (String p pat) before after rep +:+ after.
Proof. apply (replace_from_behind before p pat after rep EmptyString). Qed.

Lemma endsWith_append s suffix : endsWith (s +:+ suffix) suffix = true.
Proof.
  unfold endsWith. rewrite length_append.
  apply andb_true_iff. split; [apply Nat.leb_le; lia|].
  replace (String.length s + String.length suffix - String.length suffix)%nat
    with (String.length s) by lia.
  rewrite string_drop_append. apply String.eqb_refl.
Qed.

Lemma startsWith_empty s : startsWith s EmptyString = true.
Proof. by destruct s. Qed.

Lemma skip_white_space_app ws t :
  forallb is_white_space ws = true ->
  skip_white_space (ws ++ t) = skip_white_space t.
Proof.
  induction ws as [|u ws IH]; intros Hws; [done|].
  simpl in Hws. apply andb_true_iff in Hws as [Hu Hws].
  cbn [app skip_white_space]. rewrite Hu. by apply IH.
Qed.

(** What [\s*] passes is white space, and it stops before a code unit that
    is none. *)
Lemma skip_white_space_split t :
  exists ws, t = ws ++ skip_white_space t /\ forallb is_white_space ws = true.
Proof.
  induction t as [|u t (ws & Ht & Hws)]; [by exists []|].
  cbn [skip_white_space]. destruct (is_white_space u) eqn:Hu.
  - exists (u :: ws). split; [by rewrite <- app_comm_cons, <- Ht|].
    simpl. by rewrite Hu.
  - by exists [].
Qed.

Lemma match_literal_spec lit t behind :
  match_literal lit t = Some behind <-> t = lit ++ behind.
Proof.
  revert t. induction lit as [|l lit IH]; intros t.
  - simpl. split; [by intros [= ->] | by intros ->].
  - destruct t as [|u t]; simpl; [by split|].
    destruct (Z.eqb_spec l u) as [-> | Hne].
    + rewrite IH. split; [by intros -> | by intros [= ->]].
    + split; [done | intros [= ? ?]; congruence].
Qed.

Lemma code_units_type : code_units "type" = [116; 121; 112; 101].
Proof. reflexivity. Qed.

Lemma code_units_equals : code_units "=" = [61].
Proof. reflexivity. Qed.

End SlugFacts.

(** X22: from a file name to its slug and back: for a name [stem.toml]
    whose stem holds no dot, the name passes the suffix test, its slug is
    the stem, and appending ".toml" to the slug gives the name back; only
    the first ".toml" is removed, so whatever follows it stays in the slug
    (the slug of [stem.toml.toml] is [stem.toml]). *)
Theorem slug_of_a_page_file stem :
  all_chars (fun c => negb (Ascii.eqb c ".")) stem = true ->
  endsWith (stem +:+ ".toml") ".toml" = true /\
  String_replace (stem +:+ ".toml") ".toml" EmptyString +:+ ".toml"
  = stem +:+ ".toml" /\
  forall rest,
    String_replace (stem +:+ ".toml" +:+ rest) ".toml" EmptyString
    = stem +:+ rest.
Proof.
  intros Hstem.
  assert (Hrest : forall rest,
            String_replace (stem +:+ ".toml" +:+ rest) ".toml" EmptyString
            = stem +:+ rest).
  { intros rest.
    by rewrite (String_replace_behind stem "." "toml" rest EmptyString Hstem). }
  split; [apply endsWith_append|]. split; [|done].
  rewrite <- (append_empty_r (stem +:+ ".toml")) at 1.
  rewrite append_assoc, Hrest. by rewrite append_empty_r.
Qed.

Lemma slug_of_a_page_file_witness :
  all_chars (fun c => negb (Ascii.eqb c ".")) "teaching" = true /\
  endsWith "teaching.toml" ".toml" = true /\
  String_replace "teaching.toml" ".toml" EmptyString +:+ ".toml"
  = "teaching.toml".
Proof.
  split; [reflexivity|].
  destruct (slug_of_a_page_file "teaching" eq_refl) as (Hends & Hback & _).
  split; [exact Hends | exact Hback].
Defined.

(** X23: the type must be declared first: a file counts as a page
    configuration exactly when its text is white space (of the class [\s],
    which holds the byte order mark and the no-break space), then [type],
    then white space again, then [=], then anything; so a file whose first
    text behind the leading white space is anything but [type] does not
    count, even when a type line follows further down (the test is anchored
    at the start of the text, not of a line). *)
Theorem type_must_be_declared_first raw :
  (declares_type_first raw = true <->
   exists ws ws' rest,
     forallb is_white_space ws = true /\ forallb is_white_space ws' = true /\
     raw = ws ++ code_units "type" ++ ws' ++ code_units "=" ++ rest) /\
  (forall ws u t,
     raw = ws ++ u :: t ->
     forallb is_white_space ws = true ->
     is_white_space u = false ->
     match_literal (code_units "type") (u :: t) = None ->
     declares_type_first raw = false).
Proof.
  split; [split|].
  - unfold declares_type_first. intros Hraw.
    destruct (match_literal _ (skip_white_space raw)) as [behind|] eqn:Htype;
      [|done].
    destruct (match_literal _ (skip_white_space behind)) as [rest|] eqn:Heq;
      [|done].
    apply match_literal_spec in Htype, Heq.
    destruct (skip_white_space_split raw) as (ws & Hws & Hwhite).
    destruct (skip_white_space_split behind) as (ws' & Hws' & Hwhite').
    exists ws, ws', rest. split; [done|]. split; [done|].
    rewrite Hws at 1. rewrite Htype. rewrite Hws' at 1. by rewrite Heq.
  - intros (ws & ws' & rest & Hws & Hws' & ->). unfold declares_type_first.
    rewrite (skip_white_space_app ws _ Hws), code_units_type, code_units_equals.
    cbn [app skip_white_space].
    change (is_white_space 116) with false. cbv iota.
    change (116 :: 121 :: 112 :: 101 :: ws' ++ 61 :: rest)
      with ([116; 121; 112; 101] ++ ws' ++ [61] ++ rest).
    rewrite (proj2 (match_literal_spec _ _ _) eq_refl).
    rewrite (skip_white_space_app ws' _ Hws').
    cbn [app skip_white_space]. change (is_white_space 61) with false.
    cbv iota. change (61 :: rest) with ([61] ++ rest).
    by rewrite (proj2 (match_literal_spec _ _ _) eq_refl).
  - intros ws u t -> Hws Hu Hnone. unfold declares_type_first.
    rewrite (skip_white_space_app ws _ Hws). cbn [skip_white_space].
    by rewrite Hu, Hnone.
Qed.

Lemma type_must_be_declared_first_witness :
  declares_type_first marked_page = true /\
  is_white_space (unit_of "t") = false /\
  match_literal (code_units "type") title_first_page = None /\
  declares_type_first title_first_page = false.
Proof.
  split.
  { apply (proj1 (type_must_be_declared_first marked_page)).
    exists [65279], [32], (code_units " 'text'").
    split; [reflexivity|]. split; reflexivity. }
  split; [reflexivity|]. split; [reflexivity|].
  exact (proj2 (type_must_be_declared_first title_first_page)
           [] (unit_of "t")
           (code_units "itle = 'x'" ++ 10 :: code_units "type = 'text'")
           eq_refl eq_refl eq_refl eq_refl).
Defined.
